(** * Qualifier-BFHL: a shallow embedding of [server.js]

    The service has two routes.  [GET /health] reports the configured
    identity; [POST /bfhl] takes a JSON object with exactly one of the keys
    [fibonacci], [prime], [lcm], [hcf], [AI] and answers with a uniform
    envelope.  This file embeds the handler and the arithmetic helpers it
    calls ([isPrime], [gcd], [lcm], [isSafeInteger], [validateIntegerArray])
    and proves properties of them.

    JavaScript numbers are IEEE 754 binary64 values.  They are modelled by
    the rational they denote, and every arithmetic operation is the exact
    operation followed by rounding to the nearest double (ties to even), so
    the loss of precision above 2^53 is part of the model. *)

From Stdlib Require Import ZArith QArith Qabs List Bool Lia.
From Stdlib Require Import Strings.String Strings.Ascii Numbers.DecimalString.
From Stdlib Require Floats.SpecFloat.
Import ListNotations.

Local Open Scope Z_scope.

(* ================================================================== *)
(** ** JavaScript numbers *)
(* ================================================================== *)

Module Num.

(** A double is an integer, a finite non-integer, an infinity or NaN.
    [Int z] stands for the double whose value is [z]; [Frac q] for a finite
    double whose value [q] is not a whole number.  The two zeros of IEEE 754
    are identified: the program never divides by zero, and [JSON.stringify]
    prints both as [0]. *)
Inductive number : Type :=
| Int (z : Z)
| Frac (q : Q)
| Inf (negative : bool)
| NaN.

(** The finite value of a number, when it has one. *)
Definition to_Q (x : number) : option Q :=
  match x with
  | Int z => Some (inject_Z z)
  | Frac q => Some q
  | Inf _ | NaN => None
  end.

(** *** Rounding to the nearest double *)

(** [ge_pow2 n d l] decides [2^l <= n/d]. *)
Definition ge_pow2 (n d : positive) (l : Z) : bool :=
  if 0 <=? l then Zpos d * 2 ^ l <=? Zpos n
  else Zpos d <=? Zpos n * 2 ^ (- l).

(** [ilog2 n d] is the integer [k] with [2^k <= n/d < 2^(k+1)]. *)
Definition ilog2 (n d : positive) : Z :=
  let l := Z.log2 (Zpos n) - Z.log2 (Zpos d) in
  if ge_pow2 n d l then l else l - 1.

(** Nearest integer to [num/den], ties to the even one
    ([0 <= num], [0 < den]). *)
Definition round_half_even (num den : Z) : Z :=
  let fl := num / den in
  match 2 * (num mod den) ?= den with
  | Lt => fl
  | Gt => fl + 1
  | Eq => if Z.even fl then fl else fl + 1
  end.

(** binary64: 53 significant bits, least exponent of a quantum -1074,
    overflow at 2^1024. *)
Definition prec : Z := 53.
Definition emin : Z := -1074.
Definition emax : Z := 1024.

(** The nearest double to [n/d], as a significand and an exponent:
    its value is [m * 2^e]. *)
Definition round_pos (n d : positive) : Z * Z :=
  let e := Z.max (ilog2 n d - (prec - 1)) emin in
  let m := if 0 <=? e
           then round_half_even (Zpos n) (Zpos d * 2 ^ e)
           else round_half_even (Zpos n * 2 ^ (- e)) (Zpos d) in
  (m, e).

Definition signed (negative : bool) (z : Z) : Z :=
  if negative then - z else z.

(** The number [(-1)^negative * m * 2^e]; a magnitude of [2^1024] or more
    has overflowed to an infinity. *)
Definition of_dyadic (negative : bool) (me : Z * Z) : number :=
  let (m, e) := me in
  if 0 <=? e then
    let v := m * 2 ^ e in
    if 2 ^ emax <=? v then Inf negative else Int (signed negative v)
  else
    let d := 2 ^ (- e) in
    if m mod d =? 0 then Int (signed negative (m / d))
    else Frac (Qred (Qmake (signed negative m) (Z.to_pos d))).

Definition round_Q (q : Q) : number :=
  match Qnum q with
  | Z0 => Int 0
  | Zpos n => of_dyadic false (round_pos n (Qden q))
  | Zneg n => of_dyadic true (round_pos n (Qden q))
  end.

(** A rational that is known to be a double: no rounding, only the choice
    between [Int] and [Frac]. *)
Definition of_Q (q : Q) : number :=
  let r := Qred q in
  if (Qden r =? 1)%positive then Int (Qnum r) else Frac r.

(** *** Arithmetic *)

(** [x + y] *)
Definition add (x y : number) : number :=
  match x, y with
  | NaN, _ | _, NaN => NaN
  | Inf s, Inf t => if Bool.eqb s t then Inf s else NaN
  | Inf s, _ | _, Inf s => Inf s
  | _, _ =>
      match to_Q x, to_Q y with
      | Some p, Some q => round_Q (p + q)
      | _, _ => NaN
      end
  end.

Definition is_zero (x : number) : bool :=
  match x with
  | Int 0 => true
  | _ => false
  end.

Definition is_negative (x : number) : bool :=
  match x with
  | Int z => z <? 0
  | Frac q => Qnum q <? 0
  | Inf s => s
  | NaN => false
  end.

(** [x * y] *)
Definition mul (x y : number) : number :=
  match x, y with
  | NaN, _ | _, NaN => NaN
  | Inf s, z | z, Inf s =>
      if is_zero z then NaN else Inf (xorb s (is_negative z))
  | _, _ =>
      match to_Q x, to_Q y with
      | Some p, Some q => round_Q (p * q)
      | _, _ => NaN
      end
  end.

(** [x / y].  A zero divisor is taken to be [+0]. *)
Definition div (x y : number) : number :=
  match x, y with
  | NaN, _ | _, NaN => NaN
  | Inf _, Inf _ => NaN
  | Inf s, _ => Inf (xorb s (is_negative y))
  | _, Inf _ => Int 0
  | _, _ =>
      if is_zero y then
        if is_zero x then NaN else Inf (is_negative x)
      else
        match to_Q x, to_Q y with
        | Some p, Some q => round_Q (p / q)
        | _, _ => NaN
        end
  end.

(** Truncation of a rational toward zero. *)
Definition Qtrunc (q : Q) : Z := Z.quot (Qnum q) (Zpos (Qden q)).

(** [x % y]: the remainder has the sign of the dividend and is exact. *)
Definition rem (x y : number) : number :=
  match x, y with
  | NaN, _ | _, NaN => NaN
  | Inf _, _ => NaN
  | _, Inf _ => x
  | Int a, Int b => if b =? 0 then NaN else Int (Z.rem a b)
  | _, _ =>
      if is_zero y then NaN
      else
        match to_Q x, to_Q y with
        | Some p, Some q => of_Q (p - q * inject_Z (Qtrunc (p / q)))
        | _, _ => NaN
        end
  end.

(** [Math.abs(x)] *)
Definition abs (x : number) : number :=
  match x with
  | Int z => Int (Z.abs z)
  | Frac q => Frac (Qabs q)
  | Inf _ => Inf false
  | NaN => NaN
  end.

(** *** Comparisons: every comparison with NaN is false. *)

Definition cmp (x y : number) : option comparison :=
  match x, y with
  | NaN, _ | _, NaN => None
  | Int a, Int b => Some (a ?= b)
  | Inf s, Inf t =>
      Some (if Bool.eqb s t then Eq else if s then Lt else Gt)
  | Inf s, _ => Some (if s then Lt else Gt)
  | _, Inf s => Some (if s then Gt else Lt)
  | _, _ =>
      match to_Q x, to_Q y with
      | Some p, Some q => Some (p ?= q)%Q
      | _, _ => None
      end
  end.

(** [x === y] *)
Definition strict_eq (x y : number) : bool :=
  match cmp x y with Some Eq => true | _ => false end.

(** [x < y] *)
Definition lt (x y : number) : bool :=
  match cmp x y with Some Lt => true | _ => false end.

(** [x <= y] *)
Definition le (x y : number) : bool :=
  match cmp x y with Some Lt | Some Eq => true | _ => false end.

(** [x > y] *)
Definition gt (x y : number) : bool := lt y x.

(** *** Predicates of the [Number] object *)

Definition MAX_SAFE_INTEGER : Z := 2 ^ 53 - 1.

(** [Number.isInteger(x)] *)
Definition isInteger (x : number) : bool :=
  match x with
  | Int _ => true
  | _ => false
  end.

(** [Number.isSafeInteger(x)] *)
Definition isSafeInteger (x : number) : bool :=
  match x with
  | Int z => Z.abs z <=? MAX_SAFE_INTEGER
  | _ => false
  end.

(** [isFinite(x)] on a number *)
Definition isFinite (x : number) : bool :=
  match x with
  | Int _ | Frac _ => true
  | Inf _ | NaN => false
  end.

End Num.

Import Num.

(* ================================================================== *)
(** ** JavaScript strings and JSON values *)
(* ================================================================== *)

(** A JavaScript string is a sequence of UTF-16 code units. *)
Definition jsstring : Type := list N.

(** The code units of an ASCII literal. *)
Fixpoint str (s : string) : jsstring :=
  match s with
  | EmptyString => []
  | String c s' => N_of_ascii c :: str s'
  end.

Fixpoint jsstring_eqb (s t : jsstring) : bool :=
  match s, t with
  | [], [] => true
  | c :: s', d :: t' => (c =? d)%N && jsstring_eqb s' t'
  | _, _ => false
  end.

(** The code units matched by [\s] and removed by [String.prototype.trim]:
    ECMAScript's WhiteSpace and LineTerminator. *)
Definition isWhiteSpace (c : N) : bool :=
  ((9 <=? c) && (c <=? 13) || (c =? 32) || (c =? 160) || (c =? 5760)
   || (8192 <=? c) && (c <=? 8202) || (c =? 8232) || (c =? 8233)
   || (c =? 8239) || (c =? 8287) || (c =? 12288) || (c =? 65279))%N.

Fixpoint trimStart (s : jsstring) : jsstring :=
  match s with
  | c :: s' => if isWhiteSpace c then trimStart s' else s
  | [] => []
  end.

Definition trimEnd (s : jsstring) : jsstring := rev (trimStart (rev s)).

(** [s.trim()] *)
Definition trim (s : jsstring) : jsstring := trimEnd (trimStart s).

(** [s.split(/\s+/)]: the pieces between the maximal runs of white space.
    A string that starts (ends) with white space has an empty first (last)
    piece, and the empty string splits into one empty piece.
    [split_ws_from in_run cur s] scans [s]; [cur] is the open piece,
    reversed, and [in_run] tells that the last unit read was white space. *)
Fixpoint split_ws_from (in_run : bool) (cur s : jsstring) : list jsstring :=
  match s with
  | [] => [rev cur]
  | c :: s' =>
      if isWhiteSpace c then
        if in_run then split_ws_from true [] s'
        else rev cur :: split_ws_from true [] s'
      else split_ws_from false (c :: cur) s'
  end.

Definition split_ws (s : jsstring) : list jsstring := split_ws_from false [] s.

(** The class [[.,!?;:]] of the pattern given to [replace]. *)
Definition isPunctuation (c : N) : bool :=
  existsb (N.eqb c) (str ".,!?;:").

(** [s.replace(/[.,!?;:]/g, '')] *)
Definition replace_punctuation (s : jsstring) : jsstring :=
  filter (fun c => negb (isPunctuation c)) s.

(** Values as [JSON.parse] and property access produce them.  The fields of
    an object are kept in the order of [Object.keys]; an object has no two
    fields of the same name. *)
#[warnings="-register-all"]
Inductive value : Type :=
| VUndefined
| VNull
| VBool (b : bool)
| VNumber (x : number)
| VString (s : jsstring)
| VArray (elems : list value)
| VObject (fields : list (jsstring * value)).

(** The truth value of [v] in a condition. *)
Definition truthy (v : value) : bool :=
  match v with
  | VUndefined | VNull => false
  | VBool b => b
  | VNumber NaN => false
  | VNumber x => negb (is_zero x)
  | VString s => negb (Nat.eqb (List.length s) 0)
  | VArray _ | VObject _ => true
  end.

(** [typeof v === 'object'] *)
Definition typeof_object (v : value) : bool :=
  match v with
  | VNull | VArray _ | VObject _ => true
  | _ => false
  end.

Definition decimal (z : Z) : string := NilZero.string_of_int (Z.to_int z).

Definition index_key (i : nat) : jsstring := str (decimal (Z.of_nat i)).

(** [Object.keys(v)] for an object or an array; a number or a boolean has
    no own enumerable property. *)
Definition Object_keys (v : value) : list jsstring :=
  match v with
  | VObject fields => map fst fields
  | VArray elems => map index_key (seq 0 (List.length elems))
  | VString s => map index_key (seq 0 (List.length s))
  | _ => []
  end.

Fixpoint lookup (name : jsstring) (fields : list (jsstring * value)) : value :=
  match fields with
  | [] => VUndefined
  | (k, v) :: rest => if jsstring_eqb k name then v else lookup name rest
  end.

(** [v.name] for the property names the program reads ([fibonacci],
    [prime], [lcm], [hcf], [AI], [candidates], [content], [parts], [text]):
    only an object can have such a property. *)
Definition get (v : value) (name : string) : value :=
  match v with
  | VObject fields => lookup (str name) fields
  | _ => VUndefined
  end.

(** [v[0]] *)
Definition get0 (v : value) : value :=
  match v with
  | VObject fields => lookup (str "0") fields
  | VArray elems => nth 0 elems VUndefined
  | VString (c :: _) => VString [c]
  | _ => VUndefined
  end.

(** [v?.name] and [v?.[0]] *)
Definition opt_get (v : value) (name : string) : value :=
  match v with
  | VUndefined | VNull => VUndefined
  | _ => get v name
  end.

Definition opt_get0 (v : value) : value :=
  match v with
  | VUndefined | VNull => VUndefined
  | _ => get0 v
  end.

(** The number held by a value.  Only numbers are passed to it: the
    coercion of other values is not part of the model. *)
Definition as_number (v : value) : number :=
  match v with
  | VNumber x => x
  | _ => NaN
  end.

(** [v === 0] *)
Definition is_zero_value (v : value) : bool :=
  match v with
  | VNumber x => strict_eq x (Int 0)
  | _ => false
  end.

(** [v === s] for a string literal [s] *)
Definition is_string_value (v : value) (s : string) : bool :=
  match v with
  | VString t => jsstring_eqb t (str s)
  | _ => false
  end.

(* ================================================================== *)
(** ** Exceptions and fuel *)
(* ================================================================== *)

(** What a [catch] clause of the handler inspects of a thrown value. *)
Record js_error : Type := {
  err_response : value;   (* error.response *)
  err_code : value        (* error.code *)
}.

(** A [TypeError] or a plain [Error]: neither property is set. *)
Definition plain_error : js_error :=
  {| err_response := VUndefined; err_code := VUndefined |}.

(** The outcome of running a piece of the program: a value, a thrown
    error, or a loop that is still running when the fuel is spent. *)
Inductive run (A : Type) : Type :=
| Ret (a : A)
| Throw (e : js_error)
| OutOfFuel.

Arguments Ret {A} a.
Arguments Throw {A} e.
Arguments OutOfFuel {A}.

Definition bind {A B : Type} (m : run A) (k : A -> run B) : run B :=
  match m with
  | Ret a => k a
  | Throw e => Throw e
  | OutOfFuel => OutOfFuel
  end.

Notation "x <- m ;; k" := (bind m (fun x => k))
  (at level 61, m at next level, right associativity).

(* ================================================================== *)
(** ** server.js *)
(* ================================================================== *)

(** *** Constraints for validation *)

Definition MAX_FIBONACCI_INPUT : Z := 1000.
Definition MAX_ARRAY_LENGTH : Z := 1000.
Definition MAX_ARRAY_VALUE : Z := 1000000.
Definition MAX_AI_QUESTION_LENGTH : Z := 1000.

(** *** Utility functions *)

(** The loop [for (let i = 3; i * i <= n; i += 2)] of [isPrime]. *)
Fixpoint isPrime_for (fuel : nat) (n i : number) : run bool :=
  match fuel with
  | O => OutOfFuel
  | S fuel' =>
      if le (mul i i) n then
        if strict_eq (rem n i) (Int 0) then Ret false
        else isPrime_for fuel' n (add i (Int 2))
      else Ret true
  end.

Definition isPrime (fuel : nat) (n : value) : run bool :=
  match n with
  | VNumber n =>
      if negb (Num.isInteger n) || lt n (Int 2) then Ret false
      else if strict_eq n (Int 2) then Ret true
      else if strict_eq (rem n (Int 2)) (Int 0) then Ret false
      else isPrime_for fuel n (Int 3)
  | _ => Ret false   (* Number.isInteger is false on what is not a number *)
  end.

Fixpoint gcd (fuel : nat) (a b : number) : run number :=
  match fuel with
  | O => OutOfFuel
  | S fuel' =>
      let a := abs a in
      let b := abs b in
      if strict_eq b (Int 0) then Ret a else gcd fuel' b (rem a b)
  end.

Definition lcm (fuel : nat) (a b : number) : run number :=
  if strict_eq a (Int 0) || strict_eq b (Int 0) then Ret (Int 0)
  else g <- gcd fuel a b ;; Ret (div (abs (mul a b)) g).

Definition isSafeInteger (value : value) : bool :=
  match value with
  | VNumber x => Num.isInteger x && Num.isSafeInteger x && Num.isFinite x
  | _ => false       (* Number.isInteger fails and && stops there *)
  end.

(** The result object of [validateIntegerArray]: [{ valid: true }] or
    [{ valid: false, error }]. *)
Inductive validation : Type :=
| Valid
| Invalid (error : string).

(** The loop of [validateIntegerArray], from index [i] on. *)
Fixpoint validate_elements (i : nat) (elems : list value) : validation :=
  match elems with
  | [] => Valid
  | v :: rest =>
      if negb (isSafeInteger v) then
        Invalid ("Invalid integer at index " ++ decimal (Z.of_nat i))
      else if gt (abs (as_number v)) (Int MAX_ARRAY_VALUE) then
        Invalid ("Value at index " ++ decimal (Z.of_nat i)
                 ++ " exceeds maximum allowed value")
      else validate_elements (S i) rest
  end.

Definition validateIntegerArray (arr : value) (minLength : Z) : validation :=
  match arr with
  | VArray elems =>
      if (Z.of_nat (List.length elems) =? 0) && (minLength >? 0) then
        Invalid "Array cannot be empty"
      else if Z.of_nat (List.length elems) >? MAX_ARRAY_LENGTH then
        Invalid ("Array length exceeds maximum of "
                 ++ decimal MAX_ARRAY_LENGTH)
      else validate_elements 0 elems
  | _ => Invalid "Input must be an array"
  end.

(** *** Responses *)

(** The status and the JSON body written by [res.status(..).json(..)].
    A field that is absent, or whose value is [undefined], is [None]. *)
Record response : Type := {
  status : Z;
  is_success : bool;
  official_email : option jsstring;
  data : option value;
  error : option string
}.

Definition failure (code : Z) (message : string) : response :=
  {| status := code; is_success := false; official_email := None;
     data := None; error := Some message |}.

Definition json_field (v : value) : option value :=
  match v with
  | VUndefined => None
  | _ => Some v
  end.

(** The environment: [process.env.OFFICIAL_EMAIL] and
    [process.env.GEMINI_API_KEY], [None] when unset. *)
Record config : Type := {
  EMAIL : option jsstring;
  GEMINI_API_KEY : option jsstring
}.

(** [!s] for an environment variable *)
Definition unset (s : option jsstring) : bool :=
  match s with
  | None | Some [] => true
  | Some (_ :: _) => false
  end.

(** *** GET /health *)

Definition get_health (cfg : config) : response :=
  if unset (EMAIL cfg) then failure 500 "Server configuration error"
  else {| status := 200; is_success := true; official_email := EMAIL cfg;
          data := None; error := None |}.

(** *** POST /bfhl *)

Definition allowedKeys : list string :=
  ["fibonacci"; "prime"; "lcm"; "hcf"; "AI"]%string.

(** The loop that generates the series: [i] counts up to [n], [a] and [b]
    are the two running values. *)
Fixpoint fibonacci_for (fuel : nat) (n i a b : number) (result : list number)
  : run (list number) :=
  match fuel with
  | O => OutOfFuel
  | S fuel' =>
      if lt i n
      then fibonacci_for fuel' n (add i (Int 1)) b (add a b) (result ++ [a])
      else Ret result
  end.

(** [arr.reduce(f)], without an initial value: the first element starts the
    accumulation, a one-element array is returned without a call of [f],
    and an empty array raises a [TypeError]. *)
Definition reduce (f : number -> number -> run number) (arr : list number)
  : run number :=
  match arr with
  | [] => Throw plain_error
  | x :: rest => fold_left (fun acc b => a <- acc ;; f a b) rest (Ret x)
  end.

(** [arr.filter(p)] *)
Fixpoint filter_run (p : value -> run bool) (arr : list value)
  : run (list value) :=
  match arr with
  | [] => Ret []
  | v :: rest =>
      keep <- p v ;;
      rest' <- filter_run p rest ;;
      Ret (if keep then v :: rest' else rest')
  end.

(** The callback of the LCM reduction. *)
Definition lcm_step (fuel : nat) (a b : number) : run number :=
  lcmValue <- lcm fuel a b ;;
  if negb (Num.isFinite lcmValue) || negb (Num.isSafeInteger lcmValue)
  then Throw plain_error
  else Ret lcmValue.

(** The outcome of [axios.post]: the [data] of the response, or the error
    the promise is rejected with. *)
Inductive axios_result : Type :=
| Resolved (response_data : value)
| Rejected (error : js_error).

(** [response.data?.candidates?.[0]?.content?.parts?.[0]?.text] *)
Definition reply_text (response_data : value) : value :=
  opt_get (opt_get0 (opt_get (opt_get (opt_get0
    (opt_get response_data "candidates")) "content") "parts")) "text".

(** The text sent to the answer service. *)
Definition prompt (question : jsstring) : jsstring :=
  str "Answer the following question with a single word only: " ++ question.

(** The [catch] clause around the call of the answer service. *)
Definition ai_catch (error : js_error) : response :=
  if truthy (err_response error) then failure 502 "AI service error"
  else if is_string_value (err_code error) "ECONNABORTED"
       then failure 504 "AI service timeout"
       else failure 503 "AI service unavailable".

(** What follows the call when the service has answered: the first word
    of the reply becomes the [result], or the handler returns early. *)
Definition extract_answer (response_data : value) : response + value :=
  let aiResponse := reply_text response_data in
  if negb (truthy aiResponse) then
    inl (failure 500 "AI service returned invalid response")
  else
    match aiResponse with
    | VString s =>
        let result := replace_punctuation (hd [] (split_ws (trim s))) in
        if negb (truthy (VString result)) || Nat.eqb (List.length result) 0
        then inr (VString (str "Unknown"))
        else inr (VString result)
    | _ =>
        (* [aiResponse.trim] is not a function: the TypeError is raised
           inside the try block of the call and caught there *)
        inl (ai_catch plain_error)
    end.

Section Handler.

Variable fuel : nat.
Variable cfg : config.
(** The answer service, from the text of the request to its outcome. *)
Variable axios_post : jsstring -> axios_result.

Definition success (result : value) : response :=
  {| status := 200; is_success := true; official_email := EMAIL cfg;
     data := json_field result; error := None |}.

(** Each branch gives the response of an early [return], or the [result]
    that the end of the handler wraps. *)
Definition handle_fibonacci (body : value) : run (response + value) :=
  let n := get body "fibonacci" in
  if negb (isSafeInteger n) then
    Ret (inl (failure 400 "Fibonacci input must be a valid integer"))
  else
    let n := as_number n in
    if lt n (Int 0) then
      Ret (inl (failure 400 "Fibonacci input must be non-negative"))
    else if gt n (Int MAX_FIBONACCI_INPUT) then
      Ret (inl (failure 400 ("Fibonacci input exceeds maximum of "
                             ++ decimal MAX_FIBONACCI_INPUT)))
    else
      result <- (if strict_eq n (Int 0) then Ret []
                 else fibonacci_for fuel n (Int 0) (Int 0) (Int 1) []) ;;
      Ret (inr (VArray (map VNumber result))).

Definition elements (arr : value) : list value :=
  match arr with
  | VArray elems => elems
  | _ => []
  end.

Definition handle_prime (body : value) : run (response + value) :=
  let arr := get body "prime" in
  match validateIntegerArray arr 0 with
  | Invalid e => Ret (inl (failure 400 e))
  | Valid =>
      result <- filter_run (isPrime fuel) (elements arr) ;;
      Ret (inr (VArray result))
  end.

Definition handle_lcm (body : value) : run (response + value) :=
  let arr := get body "lcm" in
  match validateIntegerArray arr 1 with
  | Invalid e => Ret (inl (failure 400 e))
  | Valid =>
      if existsb is_zero_value (elements arr) then
        Ret (inr (VNumber (Int 0)))
      else
        match reduce (lcm_step fuel) (map as_number (elements arr)) with
        | Ret result => Ret (inr (VNumber result))
        | Throw _ =>
            Ret (inl (failure 400
                        "LCM calculation overflow - values too large"))
        | OutOfFuel => OutOfFuel
        end
  end.

Definition handle_hcf (body : value) : run (response + value) :=
  let arr := get body "hcf" in
  match validateIntegerArray arr 1 with
  | Invalid e => Ret (inl (failure 400 e))
  | Valid =>
      result <- reduce (gcd fuel) (map as_number (elements arr)) ;;
      Ret (inr (VNumber result))
  end.

Definition handle_AI (body : value) : run (response + value) :=
  let question := get body "AI" in
  match question with
  | VString q =>
      if Nat.eqb (List.length (trim q)) 0 then
        Ret (inl (failure 400 "AI question cannot be empty"))
      else if Z.of_nat (List.length q) >? MAX_AI_QUESTION_LENGTH then
        Ret (inl (failure 400 ("AI question exceeds maximum length of "
                               ++ decimal MAX_AI_QUESTION_LENGTH)))
      else if unset (GEMINI_API_KEY cfg) then
        Ret (inl (failure 500 "AI service not configured"))
      else
        match axios_post (prompt q) with
        | Rejected error => Ret (inl (ai_catch error))
        | Resolved response_data => Ret (extract_answer response_data)
        end
  | _ => Ret (inl (failure 400 "AI input must be a string"))
  end.

(** The body of the [try] block of the handler. *)
Definition post_bfhl_try (body : value) : run response :=
  if unset (EMAIL cfg) then Ret (failure 500 "Server configuration error")
  else if negb (truthy body) || negb (typeof_object body) then
    Ret (failure 400 "Invalid request body")
  else
    let keys := Object_keys body in
    if Nat.eqb (List.length keys) 0 then
      Ret (failure 400 "Request body cannot be empty")
    else if Nat.ltb 1 (List.length keys) then
      Ret (failure 400 "Request must contain exactly one key")
    else
      let key := hd [] keys in
      if negb (existsb (fun k => jsstring_eqb (str k) key) allowedKeys) then
        Ret (failure 400 ("Invalid key. Allowed keys: "
                          ++ String.concat ", " allowedKeys))
      else
        r <- (if jsstring_eqb key (str "fibonacci") then handle_fibonacci body
              else if jsstring_eqb key (str "prime") then handle_prime body
              else if jsstring_eqb key (str "lcm") then handle_lcm body
              else if jsstring_eqb key (str "hcf") then handle_hcf body
              else if jsstring_eqb key (str "AI") then handle_AI body
              else Ret (inr VUndefined)) ;;
        match r with
        | inl early => Ret early
        | inr result => Ret (success result)
        end.

(** The handler: an error that escapes the [try] block is answered with
    500. *)
Definition post_bfhl (body : value) : run response :=
  match post_bfhl_try body with
  | Throw _ => Ret (failure 500 "Internal server error")
  | r => r
  end.

End Handler.

(** *** The other routes and the error handler *)

Definition not_found : response := failure 404 "Route not found".

(** [json_syntax_error]: the error is the [SyntaxError] with status 400
    that the body parser raises on malformed JSON. *)
Definition error_handler (json_syntax_error : bool) : response :=
  if json_syntax_error then failure 400 "Invalid JSON"
  else failure 500 "Internal server error".

(** What reaches the handlers of the application, past its middleware: a
    request of one of the two routes, a request whose body the parser
    rejected, or a request that no route matches.  A request that the
    middleware answers by itself (the CORS layer answers an [OPTIONS]
    request) reaches none of them. *)
Inductive request : Type :=
| GET_health
| POST_bfhl (body : value)
| ParserError (json_syntax_error : bool)
| OtherRoute.

Definition serve (fuel : nat) (cfg : config)
    (axios_post : jsstring -> axios_result) (req : request) : run response :=
  match req with
  | GET_health => Ret (get_health cfg)
  | POST_bfhl body => post_bfhl fuel cfg axios_post body
  | ParserError e => Ret (error_handler e)
  | OtherRoute => Ret not_found
  end.

(** *** Shorthands for request bodies *)

Definition num (z : Z) : value := VNumber (Int z).

Definition arr (l : list Z) : value := VArray (map num l).

(** The body [{ k: v }]. *)
Definition obj1 (k : string) (v : value) : value := VObject [(str k, v)].

(** A configured server and an answer service that cannot be reached, for
    the examples. *)
Definition example_config : config :=
  {| EMAIL := Some (str "student@chitkara.edu.in");
     GEMINI_API_KEY := Some (str "key") |}.

Definition unreachable_service (text : jsstring) : axios_result :=
  Rejected plain_error.

(** The response body of the answer service that carries the text [s]. *)
Definition reply_with (s : value) : value :=
  obj1 "candidates"
    (VArray [obj1 "content" (obj1 "parts" (VArray [obj1 "text" s]))]).

(** A service that answers every question with [s], and one whose call
    fails with [e]. *)
Definition answering (s : string) (text : jsstring) : axios_result :=
  Resolved (reply_with (VString (str s))).

Definition failing (e : js_error) (text : jsstring) : axios_result :=
  Rejected e.

(** *** The answer service behind the call *)

(** The failures of the network that keep a request from an answer, by the
    code that the error carries.  [ETIMEDOUT] is the connection attempt
    given up by the operating system, which is not the timeout of the
    call. *)
Inductive network_failure : Type :=
| ENOTFOUND
| ECONNREFUSED
| ECONNRESET
| EHOSTUNREACH
| ENETUNREACH
| EAI_AGAIN
| ETIMEDOUT
| EPIPE.

Definition code_of (f : network_failure) : string :=
  match f with
  | ENOTFOUND => "ENOTFOUND"
  | ECONNREFUSED => "ECONNREFUSED"
  | ECONNRESET => "ECONNRESET"
  | EHOSTUNREACH => "EHOSTUNREACH"
  | ENETUNREACH => "ENETUNREACH"
  | EAI_AGAIN => "EAI_AGAIN"
  | ETIMEDOUT => "ETIMEDOUT"
  | EPIPE => "EPIPE"
  end.

(** What the service does with a request: it answers with an HTTP status
    and a body, or the network fails. *)
Inductive service_outcome : Type :=
| Responds (http_status : Z) (response_data : value)
| Fails (f : network_failure).

(** The behaviour of the service on a request: its outcome, and the time
    in milliseconds after which the outcome is there. *)
Record service_behaviour : Type := {
  outcome : service_outcome;
  elapsed : Z
}.

(** [timeout: 10000], the option that the handler gives to [axios.post]. *)
Definition request_timeout : Z := 10000.

(** The errors [axios.post] rejects with.  A response whose status is
    outside 200..299 is carried by the error, with the code
    [ERR_BAD_REQUEST] for a status 4xx and [ERR_BAD_RESPONSE] for 5xx; a
    call aborted at its timeout gives the code [ECONNABORTED] and no
    response; a failure of the network gives its own code and no
    response. *)
Definition status_error (http_status : Z) (response_data : value)
    : js_error :=
  {| err_response :=
       VObject [(str "status", VNumber (Int http_status));
                (str "data", response_data)];
     err_code :=
       if (400 <=? http_status) && (http_status <? 500)
       then VString (str "ERR_BAD_REQUEST")
       else if (500 <=? http_status) && (http_status <? 600)
            then VString (str "ERR_BAD_RESPONSE")
            else VUndefined |}.

Definition timeout_error : js_error :=
  {| err_response := VUndefined;
     err_code := VString (str "ECONNABORTED") |}.

Definition network_error (f : network_failure) : js_error :=
  {| err_response := VUndefined; err_code := VString (str (code_of f)) |}.

(** [axios.post] with the option [timeout] against a service: the call is
    aborted when the service takes longer than [timeout] milliseconds (0
    stands for no timeout); otherwise the promise is resolved with the
    body of a response of status 200..299 and rejected in every other
    case. *)
Definition axios_post_with (timeout : Z)
    (service : jsstring -> service_behaviour) (text : jsstring)
    : axios_result :=
  let b := service text in
  if (0 <? timeout) && (timeout <? elapsed b) then Rejected timeout_error
  else
    match outcome b with
    | Responds http_status response_data =>
        if (200 <=? http_status) && (http_status <? 300)
        then Resolved response_data
        else Rejected (status_error http_status response_data)
    | Fails f => Rejected (network_error f)
    end.

(** The call of the handler, with its options. *)
Definition axios_post_to (service : jsstring -> service_behaviour)
    : jsstring -> axios_result :=
  axios_post_with request_timeout service.




(* ================================================================== *)
(** ** The properties, as the specification words them *)
(* ================================================================== *)

(** The integers from [lo] to [hi]. *)
Definition range (lo hi : Z) : list Z :=
  map (fun k => lo + Z.of_nat k) (seq 0 (Z.to_nat (hi + 1 - lo))).

(** Primality: an integer below 2 is not prime, 2 is prime, an even integer
    above 2 is not prime, and an odd one is prime when no odd number from 3
    up to its integer square root divides it. *)
Definition spec_prime (z : Z) : bool :=
  if z <? 2 then false
  else if z =? 2 then true
  else if Z.even z then false
  else forallb (fun d => negb (Z.odd d && (z mod d =? 0)))
               (range 3 (Z.sqrt z)).

(** The series that starts with [a], [b] and in which each element is the
    sum of the two before it, [k] elements long. *)
Fixpoint fib_seq (k : nat) (a b : number) : list number :=
  match k with
  | O => []
  | S k' => a :: fib_seq k' b (add a b)
  end.






(** A question that passes the checks of the AI branch. *)
Definition valid_question (q : jsstring) : Prop :=
  trim q <> [] /\ Z.of_nat (List.length q) <= MAX_AI_QUESTION_LENGTH.

(** The first white-space-delimited token of a string. *)
Fixpoint first_token (s : jsstring) : jsstring :=
  match s with
  | [] => []
  | c :: s' => if isWhiteSpace c then [] else c :: first_token s'
  end.

(** A string without the punctuation characters at its end. *)
Definition strip_trailing_punctuation (s : jsstring) : jsstring :=
  let fix strip (r : jsstring) : jsstring :=
    match r with
    | c :: r' => if isPunctuation c then strip r' else r
    | [] => []
    end in
  rev (strip (rev s)).

Definition or_unknown (token : jsstring) : jsstring :=
  match token with
  | [] => str "Unknown"
  | _ => token
  end.

(** The answer as the specification words it: the first token of the
    trimmed reply without its trailing punctuation, or ["Unknown"]. *)
Definition spec_answer (reply : jsstring) : jsstring :=
  or_unknown (strip_trailing_punctuation (first_token (trim reply))).

(** The envelope invariant: a success carries the configured identity and
    a [data] field and no [error] field; a failure carries an [error]
    field and no [data] field. *)
Definition envelope (cfg : config) (r : response) : Prop :=
  if is_success r then
    official_email r = EMAIL cfg /\ unset (EMAIL cfg) = false
    /\ data r <> None /\ error r = None
  else error r <> None /\ data r = None.

(** The envelope of the health check: its success carries the identity
    and neither [data] nor [error]. *)
Definition health_envelope (cfg : config) (r : response) : Prop :=
  if is_success r then
    official_email r = EMAIL cfg /\ unset (EMAIL cfg) = false
    /\ data r = None /\ error r = None
  else error r <> None /\ data r = None.

(** [|a * b| / gcd(a, b)] for two integers, as the doubles compute it: the
    product is rounded, then the quotient is. *)
Definition lcm_double (a b : Z) : number :=
  if (a =? 0) || (b =? 0) then Int 0
  else div (abs (mul (Int a) (Int b))) (Int (Z.gcd a b)).

(** The intermediate results of the LCM reduction that starts from [acc]
    and goes through [rest] from left to right: each value that is
    computed, up to the first one that is not a safe integer. *)
Fixpoint lcm_results (acc : Z) (rest : list Z) : list number :=
  match rest with
  | [] => []
  | b :: rest' =>
      let v := lcm_double acc b in
      match v with
      | Int z =>
          if Z.abs z <=? MAX_SAFE_INTEGER then v :: lcm_results z rest'
          else [v]
      | _ => [v]
      end
  end.

(** The same results in exact arithmetic. *)
Fixpoint lcm_exact_results (acc : Z) (rest : list Z) : list Z :=
  match rest with
  | [] => []
  | b :: rest' => Z.lcm acc b :: lcm_exact_results (Z.lcm acc b) rest'
  end.

(** Every product that the reduction forms in exact arithmetic is below
    2^53, so that no operation rounds. *)
Fixpoint products_exact (acc : Z) (rest : list Z) : Prop :=
  match rest with
  | [] => True
  | b :: rest' =>
      Z.abs (acc * b) < 2 ^ 53 /\ products_exact (Z.lcm acc b) rest'
  end.

(** The series in exact arithmetic. *)
Fixpoint fib_exact (k : nat) (a b : Z) : list Z :=
  match k with
  | O => []
  | S k' => a :: fib_exact k' b (a + b)
  end.

(** The recurrence as the specification words it, on the integers that
    are returned: every element from the third on is the sum of the two
    elements before it. *)
Definition recurrence (zs : list Z) : Prop :=
  forall i, (2 <= i < List.length zs)%nat ->
    nth i zs 0 = nth (i - 1) zs 0 + nth (i - 2) zs 0.

(** A number that is finite and whose magnitude is within the safe-integer
    range. *)
Definition within_safe_range (x : number) : bool :=
  Num.isFinite x && le (abs x) (Int MAX_SAFE_INTEGER).

(* ================================================================== *)
(** ** Auxiliary definitions of the proofs *)
(* ================================================================== *)

(** The number of bits of [x]; the second argument of [gcd] loses one bit
    every other call. *)
Definition bits (x : Z) : Z := Z.log2 (2 * x + 1).

(** How the handler ends once a branch has run. *)
Definition finish (cfg : config) (r : run (response + value)) : run response :=
  match r with
  | Ret (inl early) => Ret early
  | Ret (inr result) => Ret (success cfg result)
  | Throw _ => Ret (failure 500 "Internal server error")
  | OutOfFuel => OutOfFuel
  end.

(** The answer of the LCM branch to a validated array. *)
Definition lcm_answer (x : Z) (rest : list Z) : response + value :=
  if existsb (Z.eqb 0) (x :: rest) then inr (num 0)
  else if forallb Num.isSafeInteger (lcm_results x rest)
       then inr (VNumber (last (lcm_results x rest) (Int x)))
       else inl (failure 400 "LCM calculation overflow - values too large").

(** A branch of the handler ends with an early failure response or with a
    result that is not [undefined]. *)
Definition branch_ok (r : run (response + value)) : Prop :=
  exists x, r = Ret x /\
    match x with
    | inl early => exists code message, early = failure code message
    | inr result => result <> VUndefined
    end.

(** The numbers as values of the standard library's specification of
    IEEE 754 binary64, to compare the operations of [Num] with its. *)
Definition to_spec (x : number) : SpecFloat.spec_float :=
  match x with
  | Int z => SpecFloat.binary_normalize 53 1024 z 0 false
  | Frac q =>
      SpecFloat.binary_normalize 53 1024 (Qnum q)
        (- Z.log2 (Zpos (Qden q))) false
  | Inf s => SpecFloat.S754_infinity s
  | NaN => SpecFloat.S754_nan
  end.

(** [fib_seq] on the binary64 addition of the standard library. *)
Fixpoint fib_seq_spec (k : nat) (a b : SpecFloat.spec_float)
  : list SpecFloat.spec_float :=
  match k with
  | O => []
  | S k' => a :: fib_seq_spec k' b (SpecFloat.SFadd 53 1024 a b)
  end.

(** *** Definitions of the further properties *)

(** The statuses the application writes. *)
Definition known_statuses : list Z := [200; 400; 404; 500; 502; 503; 504].

(** A server whose identity is not set. *)
Definition unconfigured : config :=
  {| EMAIL := None; GEMINI_API_KEY := Some (str "key") |}.

(** The three array operations and the minimum length each of them gives
    to [validateIntegerArray]. *)
Definition array_operations : list (string * Z) :=
  [("prime", 0); ("lcm", 1); ("hcf", 1)]%string.

(** A string in which no code unit is white space or one of the
    punctuation characters of the pattern. *)
Definition clean_word (s : jsstring) : Prop :=
  s <> [] /\ Forall (fun c => isWhiteSpace c = false) s
  /\ Forall (fun c => isPunctuation c = false) s.

(** The product of the elements of a list. *)
Definition product (zs : list Z) : Z := fold_right Z.mul 1 zs.

(** The statuses that the handler of [POST /bfhl] gives to a failure. *)
Definition failure_statuses : list Z := [400; 500; 502; 503; 504].

(** A failure response whose status is one of [codes]. *)
Definition failure_among (codes : list Z) (r : response) : Prop :=
  exists code message, r = failure code message /\ In code codes.

(** A branch that returns early does so with a failure whose status is one
    of [codes]. *)
Definition early_codes (codes : list Z) (r : run (response + value)) : Prop :=
  forall early, r = Ret (inl early) -> failure_among codes early.

(** The four operations on numbers. *)
Definition numeric_operations : list string :=
  ["fibonacci"; "prime"; "lcm"; "hcf"]%string.

(* ================================================================== *)
(** ** Exactness of the arithmetic on small integers *)
(* ================================================================== *)

Module NumFacts.

Lemma pow53_lt_emax : 2 ^ 53 < 2 ^ emax.
Proof. apply Z.pow_lt_mono_r; unfold emax; lia. Qed.

Lemma round_half_even_exact (num den : Z) :
  0 < den -> num mod den = 0 -> round_half_even num den = num / den.
Proof.
  intros Hden Hmod. unfold round_half_even. rewrite Hmod.
  destruct (Z.compare_spec (2 * 0) den); (reflexivity || lia).
Qed.

Lemma ilog2_le (n d : positive) : ilog2 n d <= Z.log2 (Zpos n).
Proof.
  unfold ilog2. pose proof (Z.log2_nonneg (Zpos d)).
  destruct (ge_pow2 _ _ _); lia.
Qed.

(** A quotient of integers that is a whole number below 2^53 is a double:
    rounding leaves it alone. *)
Lemma round_pos_exact (s : bool) (n d : positive) :
  (Zpos d | Zpos n) -> Zpos n < 2 ^ 53 ->
  of_dyadic s (round_pos n d) = Int (signed s (Zpos n / Zpos d)).
Proof.
  intros Hdiv Hlt.
  assert (Hmod : Zpos n mod Zpos d = 0)
    by (apply Z.mod_divide; [lia | exact Hdiv]).
  assert (Hk : ilog2 n d <= 52).
  { pose proof (ilog2_le n d).
    assert (Z.log2 (Zpos n) < 53) by (apply Z.log2_lt_pow2; lia). lia. }
  unfold round_pos, prec.
  set (e := Z.max (ilog2 n d - (53 - 1)) emin).
  assert (He : e <= 0) by (unfold e, emin; lia).
  unfold of_dyadic.
  destruct (Z.leb_spec 0 e) as [H0|H0].
  - assert (e = 0) by lia. subst e. rewrite H. rewrite Z.pow_0_r, !Z.mul_1_r.
    rewrite round_half_even_exact by (lia || assumption).
    assert (Zpos n / Zpos d <= Zpos n).
    { apply Z.div_le_upper_bound; nia. }
    pose proof pow53_lt_emax.
    destruct (Z.leb_spec (2 ^ emax) (Zpos n / Zpos d)); [lia | reflexivity].
  - assert (Hp : 0 < 2 ^ (- e)) by (apply Z.pow_pos_nonneg; lia).
    rewrite round_half_even_exact; [ | lia | ].
    + destruct Hdiv as [c Hc]. rewrite Hc.
      replace (c * Zpos d * 2 ^ (- e)) with (c * 2 ^ (- e) * Zpos d) by ring.
      rewrite !Z.div_mul by lia.
      rewrite Z.mod_mul by lia. rewrite Z.eqb_refl. reflexivity.
    + destruct Hdiv as [c Hc]. rewrite Hc.
      replace (c * Zpos d * 2 ^ (- e)) with (c * 2 ^ (- e) * Zpos d) by ring.
      apply Z.mod_mul. lia.
Qed.

Lemma round_Q_exact (p : Z) (d : positive) :
  (Zpos d | p) -> Z.abs p < 2 ^ 53 -> round_Q (p # d) = Int (p / Zpos d).
Proof.
  intros Hdiv Hlt. unfold round_Q. cbn [Qnum Qden].
  destruct p as [|n|n].
  - reflexivity.
  - apply (round_pos_exact false); [exact Hdiv | lia].
  - rewrite (round_pos_exact true).
    + cbn [signed]. f_equal.
      destruct Hdiv as [c Hc].
      assert (Hn : Zpos n = (- c) * Zpos d) by lia.
      rewrite Hc, Hn, !Z.div_mul by lia. lia.
    + apply Z.divide_opp_r in Hdiv. exact Hdiv.
    + lia.
Qed.

Lemma round_Q_int (z : Z) :
  Z.abs z < 2 ^ 53 -> round_Q (inject_Z z) = Int z.
Proof.
  intros H. unfold inject_Z. rewrite round_Q_exact.
  - rewrite Z.div_1_r. reflexivity.
  - apply Z.divide_1_l.
  - exact H.
Qed.

Lemma add_int (a b : Z) : add (Int a) (Int b) = round_Q (inject_Z (a + b)).
Proof.
  unfold add, to_Q, inject_Z, Qplus. cbn [Qnum Qden].
  rewrite !Z.mul_1_r. reflexivity.
Qed.

Lemma mul_int (a b : Z) : mul (Int a) (Int b) = round_Q (inject_Z (a * b)).
Proof. reflexivity. Qed.

Lemma add_exact (a b : Z) :
  Z.abs (a + b) < 2 ^ 53 -> add (Int a) (Int b) = Int (a + b).
Proof. intros H. rewrite add_int. apply round_Q_int, H. Qed.

Lemma mul_exact (a b : Z) :
  Z.abs (a * b) < 2 ^ 53 -> mul (Int a) (Int b) = Int (a * b).
Proof. intros H. rewrite mul_int. apply round_Q_int, H. Qed.

(** Division of an integer below 2^53 by one of its divisors. *)
Lemma div_exact (p g : Z) :
  0 < g -> (g | p) -> Z.abs p < 2 ^ 53 -> div (Int p) (Int g) = Int (p / g).
Proof.
  intros Hg Hdiv Hlt. unfold div.
  destruct g as [|g|g]; try lia.
  cbn [is_zero to_Q inject_Z].
  unfold Qdiv, Qinv, Qmult. cbn [Qnum Qden].
  rewrite Z.mul_1_r. cbn [Pos.mul].
  apply round_Q_exact; assumption.
Qed.

Lemma cmp_int (a b : Z) : cmp (Int a) (Int b) = Some (a ?= b).
Proof. reflexivity. Qed.

Lemma strict_eq_int (a b : Z) : strict_eq (Int a) (Int b) = (a =? b).
Proof.
  unfold strict_eq. rewrite cmp_int.
  destruct (Z.compare_spec a b), (Z.eqb_spec a b); (reflexivity || lia).
Qed.

Lemma lt_int (a b : Z) : lt (Int a) (Int b) = (a <? b).
Proof.
  unfold lt. rewrite cmp_int.
  destruct (Z.compare_spec a b), (Z.ltb_spec a b); (reflexivity || lia).
Qed.

Lemma le_int (a b : Z) : le (Int a) (Int b) = (a <=? b).
Proof.
  unfold le. rewrite cmp_int.
  destruct (Z.compare_spec a b), (Z.leb_spec a b); (reflexivity || lia).
Qed.

Lemma gt_int (a b : Z) : gt (Int a) (Int b) = (b <? a).
Proof. apply lt_int. Qed.

Lemma Qplus_comm_eq (p q : Q) : (p + q)%Q = (q + p)%Q.
Proof.
  unfold Qplus. f_equal; [ring | apply Pos.mul_comm].
Qed.

(** Addition of doubles is commutative. *)
Lemma add_comm (x y : number) : add x y = add y x.
Proof.
  destruct x as [a|p|s|], y as [b|q|t|]; cbn [add to_Q];
    try reflexivity; try (rewrite Qplus_comm_eq; reflexivity).
  destruct s, t; reflexivity.
Qed.

End NumFacts.

Import NumFacts.

(** *** Agreement with the binary64 operations of the standard library *)

(** The 1000 first elements of the series are the same on [Num.add] and on
    [SFadd]. *)
Example fib_seq_agrees :
  map to_spec (fib_seq 1000 (Int 0) (Int 1))
  = fib_seq_spec 1000 (to_spec (Int 0)) (to_spec (Int 1)).
Proof. vm_compute. reflexivity. Qed.

(** A rounded product and its rounded quotient are the same on [Num.mul],
    [Num.div] and on [SFmul], [SFdiv]. *)
Example lcm_double_agrees :
  to_spec (lcm_double 204211624405 49745)
  = SpecFloat.SFdiv 53 1024
      (SpecFloat.SFabs
         (SpecFloat.SFmul 53 1024 (to_spec (Int 204211624405))
            (to_spec (Int 49745))))
      (to_spec (Int (Z.gcd 204211624405 49745)))
  /\ to_spec (lcm_double 77576763270 615942)
     = SpecFloat.SFdiv 53 1024
         (SpecFloat.SFabs
            (SpecFloat.SFmul 53 1024 (to_spec (Int 77576763270))
               (to_spec (Int 615942))))
         (to_spec (Int (Z.gcd 77576763270 615942))).
Proof. split; vm_compute; reflexivity. Qed.

(** Overflow and gradual underflow. *)
Example rounding_agrees_at_the_ends :
  to_spec (mul (Int (2 ^ 1000 + 2 ^ 950)) (Int (2 ^ 24 + 1)))
  = SpecFloat.SFmul 53 1024 (to_spec (Int (2 ^ 1000 + 2 ^ 950)))
      (to_spec (Int (2 ^ 24 + 1)))
  /\ to_spec (div (Int 3) (Int (2 ^ 1023 + 2 ^ 1000)))
     = SpecFloat.SFdiv 53 1024 (to_spec (Int 3))
         (to_spec (Int (2 ^ 1023 + 2 ^ 1000)))
  /\ to_spec (div (div (Int 3) (Int (2 ^ 1023))) (Int (2 ^ 40 + 7)))
     = SpecFloat.SFdiv 53 1024
         (SpecFloat.SFdiv 53 1024 (to_spec (Int 3)) (to_spec (Int (2 ^ 1023))))
         (to_spec (Int (2 ^ 40 + 7))).
Proof. repeat split; vm_compute; reflexivity. Qed.

Arguments add : simpl never.
Arguments mul : simpl never.
Arguments div : simpl never.
Arguments round_Q : simpl never.

(* ================================================================== *)
(** ** The utility functions on validated integers *)
(* ================================================================== *)

(** *** gcd *)

Lemma bits_nonneg (x : Z) : 0 <= bits x.
Proof. apply Z.log2_nonneg. Qed.

Lemma bits_mono (x y : Z) : x <= y -> bits x <= bits y.
Proof. intros H. apply Z.log2_le_mono. lia. Qed.

Lemma bits_pos (x : Z) : 0 < x -> 1 <= bits x.
Proof.
  intros H. unfold bits. transitivity (Z.log2 2); [cbn; lia|].
  apply Z.log2_le_mono. lia.
Qed.

Lemma bits_half (r a : Z) : 0 < r -> 2 * r < a -> bits r + 1 <= bits a.
Proof.
  intros Hr Hlt. unfold bits.
  replace (Z.log2 (2 * r + 1) + 1) with (Z.log2 (2 * (2 * r + 1)))
    by (rewrite Z.log2_double; lia).
  apply Z.log2_le_mono. lia.
Qed.

Lemma bits_bound (x k : Z) : 0 <= k -> 0 <= x < 2 ^ k -> bits x <= k.
Proof.
  intros Hk Hx. unfold bits.
  destruct (Z.eq_dec x 0) as [->|Hnz].
  - cbn. exact Hk.
  - assert (Z.log2 (2 * x + 1) < k + 1); [|lia].
    apply Z.log2_lt_pow2; [lia|].
    rewrite Z.pow_add_r by lia. lia.
Qed.

Lemma gcd_nonneg (fuel : nat) (a b : Z) :
  0 <= a -> 0 <= b ->
  bits a + bits b + (if a <? b then 1 else 0) + 1 <= Z.of_nat fuel ->
  gcd fuel (Int a) (Int b) = Ret (Int (Z.gcd a b)).
Proof.
  revert a b. induction fuel as [|fuel IH]; intros a b Ha Hb Hfuel.
  - pose proof (bits_nonneg a). pose proof (bits_nonneg b).
    destruct (a <? b); lia.
  - cbn [gcd abs]. rewrite !Z.abs_eq by assumption.
    rewrite strict_eq_int.
    destruct (Z.eqb_spec b 0) as [->|Hnz].
    + rewrite Z.gcd_0_r, Z.abs_eq by assumption. reflexivity.
    + cbn [rem]. destruct (Z.eqb_spec b 0) as [|_]; [contradiction|].
      rewrite Z.rem_mod_nonneg by lia.
      pose proof (Z.mod_pos_bound a b ltac:(lia)) as Hr.
      rewrite IH.
      * rewrite Z.gcd_comm, Z.gcd_mod by lia. rewrite Z.gcd_comm. reflexivity.
      * lia.
      * lia.
      * destruct (Z.ltb_spec b (a mod b)); [lia|].
        destruct (Z.ltb_spec a b).
        -- rewrite Z.mod_small by lia. lia.
        -- destruct (Z.eq_dec (a mod b) 0) as [->|Hrnz].
           ++ pose proof (bits_pos a ltac:(lia)). cbn [bits] in *.
              change (bits 0) with 0. lia.
           ++ assert (2 * (a mod b) < a).
              { pose proof (Z.div_mod a b Hnz).
                assert (1 <= a / b) by (apply Z.div_le_lower_bound; lia).
                nia. }
              pose proof (bits_half (a mod b) a ltac:(lia) ltac:(lia)). lia.
Qed.

(** On safe integers [gcd] is the greatest common divisor, and a fuel of 128
    calls is more than it needs. *)
Lemma gcd_int (fuel : nat) (a b : Z) :
  Z.abs a < 2 ^ 53 -> Z.abs b < 2 ^ 53 -> (128 <= fuel)%nat ->
  gcd fuel (Int a) (Int b) = Ret (Int (Z.gcd a b)).
Proof.
  intros Ha Hb Hfuel.
  assert (Habs : gcd fuel (Int a) (Int b)
                 = gcd fuel (Int (Z.abs a)) (Int (Z.abs b))).
  { destruct fuel; [reflexivity|]. cbn [gcd abs].
    rewrite !Z.abs_idemp. reflexivity. }
  rewrite Habs, gcd_nonneg.
  - rewrite Z.gcd_abs_l, Z.gcd_abs_r. reflexivity.
  - lia.
  - lia.
  - pose proof (bits_bound (Z.abs a) 53 ltac:(lia) ltac:(lia)).
    pose proof (bits_bound (Z.abs b) 53 ltac:(lia) ltac:(lia)).
    destruct (Z.abs a <? Z.abs b); lia.
Qed.

(** *** isPrime *)

Lemma In_range (lo hi d : Z) : In d (range lo hi) <-> lo <= d <= hi.
Proof.
  unfold range. rewrite in_map_iff. split.
  - intros [k [<- Hk]]. apply in_seq in Hk. lia.
  - intros H. exists (Z.to_nat (d - lo)). split; [lia|].
    apply in_seq. lia.
Qed.

Lemma rem_int (a b : Z) :
  0 <= a -> 0 < b -> rem (Int a) (Int b) = Int (a mod b).
Proof.
  intros Ha Hb. cbn [rem].
  destruct (Z.eqb_spec b 0); [lia|].
  rewrite Z.rem_mod_nonneg by lia. reflexivity.
Qed.

Lemma sqrt_bound (n : Z) : 0 <= n <= 2 ^ 50 -> 0 <= Z.sqrt n <= 2 ^ 25.
Proof.
  intros H. split; [apply Z.sqrt_nonneg|].
  change (2 ^ 25) with (Z.sqrt (2 ^ 50)). apply Z.sqrt_le_mono. lia.
Qed.

(** The loop of [isPrime] tries the odd numbers from [i] up to the square
    root of [n], and needs one unit of fuel for each. *)
Lemma isPrime_for_int (fuel : nat) (n i : Z) :
  0 <= n <= 2 ^ 50 -> 3 <= i <= Z.sqrt n + 2 -> Z.odd i = true ->
  Z.sqrt n + 1 - i < Z.of_nat fuel -> (0 < fuel)%nat ->
  exists b, isPrime_for fuel (Int n) (Int i) = Ret b /\
    (b = true <->
     forall d, i <= d <= Z.sqrt n -> Z.odd d = true -> n mod d <> 0).
Proof.
  revert i. induction fuel as [|fuel IH]; intros i Hn Hi Hodd Hfuel Hpos.
  - lia.
  - pose proof (sqrt_bound n Hn) as Hs.
    cbn [isPrime_for].
    rewrite mul_exact by (rewrite Z.abs_eq; nia).
    rewrite le_int.
    destruct (Z.leb_spec (i * i) n) as [Hle|Hgt].
    + assert (Hi' : i <= Z.sqrt n) by (apply Z.sqrt_le_square; lia).
      rewrite rem_int by lia. rewrite strict_eq_int.
      destruct (Z.eqb_spec (n mod i) 0) as [Hz|Hnz].
      * exists false. split; [reflexivity|]. split; [discriminate|].
        intros H. exfalso. apply (H i); [lia | exact Hodd | exact Hz].
      * rewrite add_exact by (rewrite Z.abs_eq; nia).
        destruct (IH (i + 2)) as [b [Hb Hiff]]; try lia.
        { rewrite Z.odd_add, Hodd. reflexivity. }
        exists b. split; [exact Hb|]. rewrite Hiff. split.
        -- intros H d Hd Hdo.
           destruct (Z.eq_dec d i) as [->|Hne]; [exact Hnz|].
           destruct (Z.eq_dec d (i + 1)) as [->|Hne'].
           ++ rewrite Z.odd_add, Hodd in Hdo. discriminate.
           ++ apply H; [lia | exact Hdo].
        -- intros H d Hd Hdo. apply H; [lia | exact Hdo].
    + exists true. split; [reflexivity|]. split; [|reflexivity].
      intros _ d Hd _. exfalso.
      assert (d * d <= n) by (apply Z.sqrt_le_square; lia). nia.
Qed.

Lemma spec_prime_odd (z : Z) :
  2 < z -> Z.odd z = true ->
  (spec_prime z = true <->
   forall d, 3 <= d <= Z.sqrt z -> Z.odd d = true -> z mod d <> 0).
Proof.
  intros Hz Hodd. unfold spec_prime.
  destruct (Z.ltb_spec z 2); [lia|].
  destruct (Z.eqb_spec z 2); [lia|].
  rewrite <- Z.negb_odd, Hodd. cbn [negb].
  rewrite forallb_forall. split.
  - intros Hall d Hd Hdo.
    specialize (Hall d (proj2 (In_range _ _ _) Hd)).
    rewrite Hdo in Hall. cbn in Hall.
    destruct (Z.eqb_spec (z mod d) 0); [discriminate | assumption].
  - intros Hall d Hd. apply In_range in Hd.
    destruct (Z.odd d) eqn:Hdo; [|reflexivity]. cbn.
    destruct (Z.eqb_spec (z mod d) 0) as [Hm|]; [|reflexivity].
    exfalso. exact (Hall d Hd Hdo Hm).
Qed.

(** The primality of the specification is primality. *)
Lemma spec_prime_iff_prime (z : Z) : spec_prime z = true <-> Z.prime z.
Proof.
  destruct (Z.lt_ge_cases z 2) as [Hlt|Hge].
  { split.
    - unfold spec_prime. destruct (Z.ltb_spec z 2); [discriminate | lia].
    - intros Hp. apply Z.prime_ge_2 in Hp. lia. }
  destruct (Z.eq_dec z 2) as [->|Hne].
  { split; [intros _; exact Z.prime_2 | reflexivity]. }
  destruct (Z.odd z) eqn:Hodd.
  - rewrite (spec_prime_odd z ltac:(lia) Hodd). split.
    + intros Hnone. split; [lia|]. intros n Hn [c Hc].
      assert (Hcpos : 1 < c) by nia.
      assert (Hoo : Z.odd c = true /\ Z.odd n = true).
      { rewrite Hc, Z.odd_mul in Hodd. apply andb_true_iff in Hodd.
        exact Hodd. }
      destruct Hoo as [Hoc Hon].
      assert (Hodd3 : forall d, 1 < d -> Z.odd d = true -> 3 <= d).
      { intros d Hd Hdo. destruct (Z.eq_dec d 2) as [->|]; [discriminate|].
        lia. }
      destruct (Z.le_gt_cases n c) as [Hle|Hgt].
      * apply (Hnone n); [|exact Hon|].
        -- split; [apply Hodd3; [lia | exact Hon]|].
           apply Z.sqrt_le_square; nia.
        -- rewrite Hc. apply Z.mod_mul. lia.
      * apply (Hnone c); [|exact Hoc|].
        -- split; [apply Hodd3; [lia | exact Hoc]|].
           apply Z.sqrt_le_square; nia.
        -- rewrite Hc, Z.mul_comm. apply Z.mod_mul. lia.
    + intros Hp d Hd Hdo Hmod.
      assert (Hdiv : (d | z)) by (apply Z.mod_divide; [lia | exact Hmod]).
      pose proof (Z.sqrt_lt_lin z ltac:(lia)).
      destruct (Z.divide_prime_r d z Hp Hdiv) as [?|[?|[?|?]]]; lia.
  - split.
    + unfold spec_prime.
      destruct (Z.ltb_spec z 2); [discriminate|].
      destruct (Z.eqb_spec z 2); [lia|].
      rewrite <- Z.negb_odd, Hodd. discriminate.
    + intros Hp. exfalso.
      assert (Hdiv : (2 | z)).
      { apply Z.mod_divide; [lia|]. rewrite Zodd_mod in Hodd.
        pose proof (Z.mod_pos_bound z 2 ltac:(lia)).
        destruct (Z.eqb_spec (z mod 2) 1); [discriminate | lia]. }
      destruct (Z.divide_prime_r 2 z Hp Hdiv) as [?|[?|[?|?]]]; lia.
Qed.

(** [isPrime] decides the primality of the specification on every integer
    of magnitude up to 2^50, with a fuel of one unit per odd number up to
    the square root. *)
Lemma isPrime_int (fuel : nat) (z : Z) :
  Z.abs z <= 2 ^ 50 -> Z.sqrt z < Z.of_nat fuel ->
  isPrime fuel (VNumber (Int z)) = Ret (spec_prime z).
Proof.
  intros Hz Hfuel. cbn [isPrime Num.isInteger negb orb].
  rewrite lt_int. unfold spec_prime.
  destruct (Z.ltb_spec z 2) as [|H2]; [reflexivity|].
  rewrite strict_eq_int.
  destruct (Z.eqb_spec z 2) as [|Hne]; [reflexivity|].
  rewrite rem_int by lia. rewrite strict_eq_int.
  rewrite Zeven_mod.
  destruct (Z.eqb_spec (z mod 2) 0) as [|Hodd]; [reflexivity|].
  assert (Ho : Z.odd z = true).
  { rewrite Zodd_mod. pose proof (Z.mod_pos_bound z 2 ltac:(lia)).
    apply Z.eqb_eq. lia. }
  assert (Hs : 1 <= Z.sqrt z).
  { change 1 with (Z.sqrt 1). apply Z.sqrt_le_mono. lia. }
  destruct (isPrime_for_int fuel z 3) as [b [Hb Hiff]];
    try lia; try reflexivity.
  rewrite Hb. f_equal. apply Bool.eq_true_iff_eq.
  rewrite Hiff. symmetry.
  pose proof (spec_prime_odd z ltac:(lia) Ho) as Hsp.
  unfold spec_prime in Hsp.
  destruct (Z.ltb_spec z 2); [lia|].
  destruct (Z.eqb_spec z 2); [lia|].
  rewrite <- Z.negb_odd, Ho in Hsp. exact Hsp.
Qed.

(** *** The Fibonacci loop *)

Lemma fibonacci_for_int (fuel : nat) (n i : Z) (a b : number)
    (result : list number) :
  0 <= i <= n -> n < 2 ^ 52 -> n - i < Z.of_nat fuel ->
  fibonacci_for fuel (Int n) (Int i) a b result
  = Ret (result ++ fib_seq (Z.to_nat (n - i)) a b).
Proof.
  revert i a b result.
  induction fuel as [|fuel IH]; intros i a b result Hi Hn Hfuel; [lia|].
  cbn [fibonacci_for]. rewrite lt_int.
  destruct (Z.ltb_spec i n) as [Hlt|Hge].
  - rewrite add_exact by lia. rewrite IH by lia.
    replace (Z.to_nat (n - i)) with (S (Z.to_nat (n - (i + 1)))) by lia.
    cbn [fib_seq]. rewrite <- app_assoc. reflexivity.
  - replace (n - i) with 0 by lia. cbn [Z.to_nat fib_seq].
    rewrite app_nil_r. reflexivity.
Qed.

Lemma fib_seq_length (k : nat) (a b : number) :
  List.length (fib_seq k a b) = k.
Proof.
  revert a b. induction k as [|k IH]; intros a b; [reflexivity|].
  cbn [fib_seq List.length]. rewrite IH. reflexivity.
Qed.

(** Each element from the third on is the sum of the two before it, in the
    order in which the loop adds them. *)
Lemma fib_seq_step (k i : nat) (a b d : number) :
  (i + 2 < k)%nat ->
  nth (i + 2) (fib_seq k a b) d
  = add (nth i (fib_seq k a b) d) (nth (i + 1) (fib_seq k a b) d).
Proof.
  revert k a b. induction i as [|i IH]; intros k a b Hlt.
  - destruct k as [|[|[|k]]]; try lia. reflexivity.
  - destruct k as [|k]; [lia|].
    cbn [fib_seq Nat.add nth]. apply IH. lia.
Qed.

Lemma fib_seq_prefix (n m : nat) (a b : number) :
  (n <= m)%nat -> fib_seq n a b = firstn n (fib_seq m a b).
Proof.
  revert m a b. induction n as [|n IH]; intros m a b Hle; [reflexivity|].
  destruct m as [|m]; [lia|].
  cbn [fib_seq firstn]. f_equal. apply IH. lia.
Qed.

Lemma nth_firstn_lt {A : Type} (i n : nat) (l : list A) (d : A) :
  (i < n)%nat -> nth i (firstn n l) d = nth i l d.
Proof.
  revert n l. induction i as [|i IH]; intros n l Hlt;
    destruct n as [|n]; try lia; destruct l as [|x l]; try reflexivity.
  cbn [firstn nth]. apply IH. lia.
Qed.

(** *** validateIntegerArray *)

Lemma isSafeInteger_inv (v : value) :
  isSafeInteger v = true ->
  exists z, v = VNumber (Int z) /\ Z.abs z <= MAX_SAFE_INTEGER.
Proof.
  destruct v as [| | |x| | |]; try discriminate.
  destruct x as [z| | |]; try discriminate.
  cbn. rewrite !andb_true_r. intros H. exists z. split; [reflexivity|].
  apply Z.leb_le. exact H.
Qed.

Lemma isSafeInteger_num (z : Z) :
  isSafeInteger (num z) = (Z.abs z <=? MAX_SAFE_INTEGER).
Proof. cbn. rewrite !andb_true_r. reflexivity. Qed.

(** The elements that the loop of [validateIntegerArray] accepts are the
    integers of magnitude up to [MAX_ARRAY_VALUE]. *)
Lemma validate_elements_valid (i : nat) (elems : list value) :
  validate_elements i elems = Valid <->
  exists zs, elems = map num zs /\
             Forall (fun z => Z.abs z <= MAX_ARRAY_VALUE) zs.
Proof.
  revert i. induction elems as [|v rest IH]; intros i.
  - split; [|reflexivity]. intros _. exists [].
    split; [reflexivity | constructor].
  - cbn [validate_elements]. split.
    + destruct (isSafeInteger v) eqn:Hsafe; [|discriminate]. cbn [negb].
      apply isSafeInteger_inv in Hsafe. destruct Hsafe as [z [-> Hz]].
      cbn [as_number abs]. rewrite gt_int.
      destruct (Z.ltb_spec MAX_ARRAY_VALUE (Z.abs z)); [discriminate|].
      intros Hrest. apply IH in Hrest. destruct Hrest as [zs [-> Hall]].
      exists (z :: zs). split; [reflexivity|]. constructor; assumption.
    + intros [zs [Heq Hall]]. destruct zs as [|z zs]; [discriminate|].
      cbn [map] in Heq. injection Heq as -> ->.
      apply Forall_cons_iff in Hall. destruct Hall as [Hz Hall].
      rewrite isSafeInteger_num.
      unfold MAX_ARRAY_VALUE, MAX_SAFE_INTEGER in *.
      destruct (Z.leb_spec (Z.abs z) (2 ^ 53 - 1)); [|lia].
      cbn [negb as_number num abs]. rewrite gt_int.
      destruct (Z.ltb_spec 1000000 (Z.abs z)); [lia|].
      apply IH. exists zs. split; [reflexivity | exact Hall].
Qed.

(** What [validateIntegerArray] accepts: an array of at most
    [MAX_ARRAY_LENGTH] integers of magnitude up to [MAX_ARRAY_VALUE], which
    is not empty when [minLength] is positive. *)
Lemma validateIntegerArray_valid (v : value) (minLength : Z) :
  validateIntegerArray v minLength = Valid <->
  exists zs, v = arr zs /\
             Forall (fun z => Z.abs z <= MAX_ARRAY_VALUE) zs /\
             Z.of_nat (List.length zs) <= MAX_ARRAY_LENGTH /\
             (0 < minLength -> zs <> []).
Proof.
  unfold validateIntegerArray, arr. split.
  - destruct v as [| | | | |elems|]; try discriminate.
    destruct (Z.eqb_spec (Z.of_nat (List.length elems)) 0) as [Hlen|Hlen];
      destruct (Z.gtb_spec minLength 0); cbn [andb]; try discriminate;
      (destruct (Z.gtb_spec (Z.of_nat (List.length elems)) MAX_ARRAY_LENGTH);
       [discriminate|]);
      intros Hv; apply validate_elements_valid in Hv;
      destruct Hv as [zs [-> Hall]]; exists zs;
      rewrite length_map in *;
      (repeat split; [assumption | lia | ]);
      intros Hpos Hnil; subst zs; cbn in *; lia.
  - intros [zs [-> [Hall [Hlen Hmin]]]]. rewrite length_map.
    destruct (Z.eqb_spec (Z.of_nat (List.length zs)) 0) as [Hz|Hz];
      destruct (Z.gtb_spec minLength 0) as [Hm|Hm]; cbn [andb].
    + exfalso. apply Hmin; [lia|]. destruct zs; [reflexivity|discriminate].
    + destruct (Z.gtb_spec (Z.of_nat (List.length zs)) MAX_ARRAY_LENGTH);
        [lia|]. apply validate_elements_valid. exists zs. auto.
    + destruct (Z.gtb_spec (Z.of_nat (List.length zs)) MAX_ARRAY_LENGTH);
        [lia|]. apply validate_elements_valid. exists zs. auto.
    + destruct (Z.gtb_spec (Z.of_nat (List.length zs)) MAX_ARRAY_LENGTH);
        [lia|]. apply validate_elements_valid. exists zs. auto.
Qed.

Lemma map_num_inj (zs zs' : list Z) : map num zs = map num zs' -> zs = zs'.
Proof.
  revert zs'. induction zs as [|z zs IH]; intros [|z' zs'] Heq;
    try discriminate; [reflexivity|].
  cbn in Heq. injection Heq as -> Heq. f_equal. apply IH, Heq.
Qed.

Lemma as_number_num (zs : list Z) : map as_number (map num zs) = map Int zs.
Proof. rewrite map_map. reflexivity. Qed.

(* ================================================================== *)
(** ** The handler *)
(* ================================================================== *)

Arguments handle_fibonacci : simpl never.
Arguments handle_prime : simpl never.
Arguments handle_lcm : simpl never.
Arguments handle_hcf : simpl never.
Arguments handle_AI : simpl never.

Section Dispatch.

Variable fuel : nat.
Variable cfg : config.
Variable axios_post : jsstring -> axios_result.
Hypothesis configured : unset (EMAIL cfg) = false.

Ltac dispatch :=
  unfold post_bfhl, post_bfhl_try, finish, obj1; rewrite configured;
  cbn -[handle_fibonacci handle_prime handle_lcm handle_hcf handle_AI];
  match goal with
  | |- context [match ?h with _ => _ end] => destruct h as [[?|?]| |]
  end;
  reflexivity.

Lemma post_bfhl_fibonacci (v : value) :
  post_bfhl fuel cfg axios_post (obj1 "fibonacci" v)
  = finish cfg (handle_fibonacci fuel (obj1 "fibonacci" v)).
Proof. dispatch. Qed.

Lemma post_bfhl_prime (v : value) :
  post_bfhl fuel cfg axios_post (obj1 "prime" v)
  = finish cfg (handle_prime fuel (obj1 "prime" v)).
Proof. dispatch. Qed.

Lemma post_bfhl_lcm (v : value) :
  post_bfhl fuel cfg axios_post (obj1 "lcm" v)
  = finish cfg (handle_lcm fuel (obj1 "lcm" v)).
Proof. dispatch. Qed.

Lemma post_bfhl_hcf (v : value) :
  post_bfhl fuel cfg axios_post (obj1 "hcf" v)
  = finish cfg (handle_hcf fuel (obj1 "hcf" v)).
Proof. dispatch. Qed.

Lemma post_bfhl_AI (v : value) :
  post_bfhl fuel cfg axios_post (obj1 "AI" v)
  = finish cfg (handle_AI cfg axios_post (obj1 "AI" v)).
Proof. dispatch. Qed.

End Dispatch.

Lemma jsstring_eqb_eq (s t : jsstring) : jsstring_eqb s t = true <-> s = t.
Proof.
  revert t. induction s as [|c s IH]; intros [|d t]; cbn [jsstring_eqb];
    try (split; (reflexivity || discriminate)).
  rewrite andb_true_iff, N.eqb_eq, IH. split.
  - intros [-> ->]. reflexivity.
  - intros H. injection H as -> ->. split; reflexivity.
Qed.

Lemma not_allowed (key : jsstring) :
  ~ In key (map str allowedKeys) ->
  existsb (fun k => jsstring_eqb (str k) key) allowedKeys = false.
Proof.
  intros Hnot. apply not_true_is_false. intros Hex.
  apply existsb_exists in Hex. destruct Hex as [k [Hin Heq]].
  apply jsstring_eqb_eq in Heq. subst key.
  apply Hnot, in_map, Hin.
Qed.

(** ** C1: the key checks *)

(** C1.  On a configured server, for every body that is a key-value
    structure: a body with no key is answered with 400 and the empty-body
    message, a body with more than one key with 400 and the multiple-keys
    message, and a body whose single key is not one of [fibonacci], [prime],
    [lcm], [hcf], [AI] with 400 and the unknown-key message.  The answer
    depends neither on the values held by the keys, nor on the fuel, nor on
    the answer service: no check or computation of an operation has run. *)
Theorem key_validation (fuel : nat) (cfg : config)
    (axios_post : jsstring -> axios_result) (body : value) :
  unset (EMAIL cfg) = false ->
  truthy body = true -> typeof_object body = true ->
  (Object_keys body = [] ->
   post_bfhl fuel cfg axios_post body
   = Ret (failure 400 "Request body cannot be empty"))
  /\ ((1 < List.length (Object_keys body))%nat ->
      post_bfhl fuel cfg axios_post body
      = Ret (failure 400 "Request must contain exactly one key"))
  /\ (forall key, Object_keys body = [key] ->
      ~ In key (map str allowedKeys) ->
      post_bfhl fuel cfg axios_post body
      = Ret (failure 400
               "Invalid key. Allowed keys: fibonacci, prime, lcm, hcf, AI")).
Proof.
  intros Hcfg Htruthy Hobj.
  unfold post_bfhl, post_bfhl_try. rewrite Hcfg, Htruthy, Hobj. cbn [negb orb].
  repeat split.
  - intros ->. reflexivity.
  - intros Hlen.
    destruct (Object_keys body) as [|k [|k' ks]]; cbn in Hlen; try lia.
    reflexivity.
  - intros key -> Hnot. cbn [List.length Nat.eqb Nat.ltb Nat.leb hd].
    rewrite (not_allowed key Hnot). reflexivity.
Qed.

Lemma key_validation_witness :
  post_bfhl 0 example_config unreachable_service (VObject [])
  = Ret (failure 400 "Request body cannot be empty")
  /\ post_bfhl 0 example_config unreachable_service
       (VObject [(str "fibonacci", num 1); (str "prime", arr [2])])
     = Ret (failure 400 "Request must contain exactly one key")
  /\ post_bfhl 0 example_config unreachable_service (obj1 "sum" (arr [1; 2]))
     = Ret (failure 400
              "Invalid key. Allowed keys: fibonacci, prime, lcm, hcf, AI").
Proof.
  split; [|split].
  - destruct (key_validation 0 example_config unreachable_service
                (VObject []) eq_refl eq_refl eq_refl) as [H _].
    exact (H eq_refl).
  - destruct (key_validation 0 example_config unreachable_service
                (VObject [(str "fibonacci", num 1); (str "prime", arr [2])])
                eq_refl eq_refl eq_refl) as [_ [H _]].
    apply H. cbn. apply le_n.
  - destruct (key_validation 0 example_config unreachable_service
                (obj1 "sum" (arr [1; 2])) eq_refl eq_refl eq_refl)
      as [_ [_ H]].
    apply (H (str "sum")); [reflexivity|].
    cbn. intros Hin.
    repeat (destruct Hin as [Hin|Hin]; [discriminate Hin|]). exact Hin.
Defined.

(** ** C2 and C10: the Fibonacci series *)

Lemma handle_fibonacci_valid (fuel : nat) (n : Z) :
  0 <= n <= MAX_FIBONACCI_INPUT -> n < Z.of_nat fuel ->
  handle_fibonacci fuel (obj1 "fibonacci" (num n))
  = Ret (inr (VArray (map VNumber (fib_seq (Z.to_nat n) (Int 0) (Int 1))))).
Proof.
  unfold MAX_FIBONACCI_INPUT. intros Hn Hfuel.
  unfold handle_fibonacci, obj1, get. cbn [lookup str jsstring_eqb].
  cbn -[isSafeInteger num]. rewrite isSafeInteger_num.
  unfold MAX_SAFE_INTEGER.
  destruct (Z.leb_spec (Z.abs n) (2 ^ 53 - 1)); [|lia].
  cbn [negb num as_number]. rewrite lt_int, gt_int, strict_eq_int.
  unfold MAX_FIBONACCI_INPUT.
  destruct (Z.ltb_spec n 0); [lia|].
  destruct (Z.ltb_spec 1000 n); [lia|].
  destruct (Z.eqb_spec n 0) as [->|Hnz]; [reflexivity|].
  rewrite fibonacci_for_int by lia.
  rewrite Z.sub_0_r. reflexivity.
Qed.

Lemma fib_exact_prefix (n m : nat) (a b : Z) :
  (n <= m)%nat -> fib_exact n a b = firstn n (fib_exact m a b).
Proof.
  revert m a b. induction n as [|n IH]; intros m a b Hle; [reflexivity|].
  destruct m as [|m]; [lia|].
  cbn [fib_exact firstn]. f_equal. apply IH. lia.
Qed.

Lemma fib_seq_79_exact :
  fib_seq 79 (Int 0) (Int 1) = map Int (fib_exact 79 0 1).
Proof. vm_compute. reflexivity. Qed.

Lemma fib_seq_1000_whole :
  forallb (fun x => match x with Int z => 0 <=? z | _ => false end)
          (fib_seq 1000 (Int 0) (Int 1)) = true.
Proof. vm_compute. reflexivity. Qed.

Lemma whole_numbers (l : list number) :
  forallb (fun x => match x with Int z => 0 <=? z | _ => false end) l
  = true ->
  exists zs, l = map Int zs /\ Forall (fun z => 0 <= z) zs.
Proof.
  induction l as [|x l IH]; intros Hall.
  - exists []. split; [reflexivity | constructor].
  - cbn [forallb] in Hall. apply andb_true_iff in Hall.
    destruct Hall as [Hx Hall]. destruct (IH Hall) as [zs [-> Hzs]].
    destruct x as [z| | |]; try discriminate.
    exists (z :: zs). split; [reflexivity|].
    constructor; [apply Z.leb_le; exact Hx | exact Hzs].
Qed.

Lemma fib_exact_step (k i : nat) (a b : Z) :
  (i + 2 < k)%nat ->
  nth (i + 2) (fib_exact k a b) 0
  = nth i (fib_exact k a b) 0 + nth (i + 1) (fib_exact k a b) 0.
Proof.
  revert k a b. induction i as [|i IH]; intros k a b Hlt.
  - destruct k as [|[|[|k]]]; try lia. reflexivity.
  - destruct k as [|k]; [lia|].
    cbn [fib_exact Nat.add nth]. apply IH. lia.
Qed.

Lemma fib_exact_length (k : nat) (a b : Z) :
  List.length (fib_exact k a b) = k.
Proof.
  revert a b. induction k as [|k IH]; intros a b; [reflexivity|].
  cbn [fib_exact List.length]. rewrite IH. reflexivity.
Qed.

Lemma fib_exact_recurrence (k : nat) (a b : Z) :
  recurrence (fib_exact k a b).
Proof.
  intros i Hi. rewrite fib_exact_length in Hi.
  replace i with ((i - 2) + 2)%nat at 1 by lia.
  rewrite fib_exact_step by lia.
  replace (i - 2 + 1)%nat with (i - 1)%nat by lia.
  apply Z.add_comm.
Qed.

Lemma map_Int_inj (zs zs' : list Z) : map Int zs = map Int zs' -> zs = zs'.
Proof.
  revert zs'. induction zs as [|z zs IH]; intros [|z' zs'] Heq;
    try discriminate; [reflexivity|].
  cbn in Heq. injection Heq as -> Heq. f_equal. apply IH, Heq.
Qed.

(** The series of the loop holds whole numbers only, and its first 79
    elements are the Fibonacci numbers. *)
Lemma fib_seq_whole (k : nat) :
  (k <= 1000)%nat ->
  exists zs,
    fib_seq k (Int 0) (Int 1) = map Int zs
    /\ firstn 79 zs = fib_exact (Nat.min k 79) 0 1.
Proof.
  intros Hk.
  destruct (whole_numbers _ fib_seq_1000_whole) as [zs1000 [H1000 _]].
  exists (firstn k zs1000).
  assert (Hzs : fib_seq k (Int 0) (Int 1) = map Int (firstn k zs1000)).
  { rewrite (fib_seq_prefix k 1000) by exact Hk.
    rewrite H1000, firstn_map. reflexivity. }
  split; [exact Hzs|].
  apply map_Int_inj. rewrite <- firstn_map, <- Hzs.
  destruct (Nat.le_gt_cases k 79) as [Hle|Hgt].
  - rewrite Nat.min_l by exact Hle.
    rewrite firstn_all2 by (rewrite fib_seq_length; exact Hle).
    rewrite (fib_seq_prefix k 79) by exact Hle.
    rewrite fib_seq_79_exact, firstn_map.
    rewrite <- (fib_exact_prefix k 79) by exact Hle. reflexivity.
  - rewrite Nat.min_r by lia.
    rewrite <- (fib_seq_prefix 79 k) by lia. apply fib_seq_79_exact.
Qed.

(** C2, as amended.  For every integer [n] from 0 to 1000 the handler
    answers the request [{ fibonacci: n }] with a series of exactly [n]
    whole numbers: empty for 0, [[0]] for 1, starting with 0, 1 from 2 on.
    Among the first 79 elements every element from the third on is the sum
    of the two elements before it; in the whole series every element from
    the third on is the sum of the two before it as the doubles add, that
    is their sum rounded to the nearest double. *)
Theorem fibonacci_series (fuel : nat) (cfg : config)
    (axios_post : jsstring -> axios_result) (n : Z) :
  (1001 <= fuel)%nat -> unset (EMAIL cfg) = false ->
  0 <= n <= MAX_FIBONACCI_INPUT ->
  exists zs,
    post_bfhl fuel cfg axios_post (obj1 "fibonacci" (num n))
    = Ret (success cfg (arr zs))
    /\ Z.of_nat (List.length zs) = n
    /\ (n = 0 -> zs = [])
    /\ (n = 1 -> zs = [0])
    /\ (2 <= n -> nth 0 zs 0 = 0 /\ nth 1 zs 0 = 1)
    /\ recurrence (firstn 79 zs)
    /\ (forall i, (2 <= i < List.length zs)%nat ->
        Int (nth i zs 0)
        = add (Int (nth (i - 1) zs 0)) (Int (nth (i - 2) zs 0))).
Proof.
  intros Hfuel Hcfg Hn. unfold MAX_FIBONACCI_INPUT in Hn.
  destruct (fib_seq_whole (Z.to_nat n)) as [zs [Hzs Hexact]]; [lia|].
  assert (Hlen : List.length zs = Z.to_nat n).
  { rewrite <- (length_map Int zs), <- Hzs. apply fib_seq_length. }
  exists zs.
  rewrite post_bfhl_fibonacci by exact Hcfg.
  rewrite handle_fibonacci_valid by (unfold MAX_FIBONACCI_INPUT; lia).
  rewrite Hzs.
  split; [unfold arr; rewrite map_map; reflexivity|].
  split; [lia|].
  split; [|split; [|split; [|split]]].
  - intros ->. destruct zs; [reflexivity | discriminate Hlen].
  - intros ->. destruct zs as [|z [|z' zs]]; try discriminate Hlen.
    cbn in Hzs. injection Hzs as <-. reflexivity.
  - intros H2. destruct (Z.to_nat n) as [|[|k]] eqn:Hk; try lia.
    destruct zs as [|z [|z' zs]]; try discriminate Hlen.
    cbn in Hzs. injection Hzs as <- <- _. split; reflexivity.
  - rewrite Hexact. apply fib_exact_recurrence.
  - intros i Hi.
    rewrite <- !(map_nth Int zs 0).
    rewrite <- Hzs.
    replace i with ((i - 2) + 2)%nat at 1 by lia.
    rewrite fib_seq_step by lia.
    replace (i - 2 + 1)%nat with (i - 1)%nat by lia.
    apply add_comm.
Qed.

Lemma fibonacci_series_witness :
  exists zs,
    post_bfhl 1001 example_config unreachable_service
      (obj1 "fibonacci" (num 7))
    = Ret (success example_config (arr zs))
    /\ Z.of_nat (List.length zs) = 7
    /\ (7 = 0 -> zs = [])
    /\ (7 = 1 -> zs = [0])
    /\ (2 <= 7 -> nth 0 zs 0 = 0 /\ nth 1 zs 0 = 1)
    /\ recurrence (firstn 79 zs)
    /\ (forall i, (2 <= i < List.length zs)%nat ->
        Int (nth i zs 0)
        = add (Int (nth (i - 1) zs 0)) (Int (nth (i - 2) zs 0))).
Proof.
  apply (fibonacci_series 1001 example_config unreachable_service 7).
  - apply le_n.
  - reflexivity.
  - unfold MAX_FIBONACCI_INPUT. split; discriminate.
Defined.

(** C2, as the specification words it, fails for 80: the series that is
    answered breaks the recurrence at index 79, where the sum
    of the two elements before it is 14472334024676221, which is not a
    double, and the element is the double next to it. *)
Lemma fibonacci_recurrence_fails_at_79 :
  exists zs,
    post_bfhl 1001 example_config unreachable_service
      (obj1 "fibonacci" (num 80))
    = Ret (success example_config (arr zs))
    /\ nth 77 zs 0 = 5527939700884757
    /\ nth 78 zs 0 = 8944394323791464
    /\ nth 79 zs 0 = 14472334024676220
    /\ ~ recurrence zs.
Proof.
  exists (fib_exact 79 0 1 ++ [14472334024676220]).
  split; [vm_compute; reflexivity|].
  repeat split; try reflexivity.
  intros Hrec. specialize (Hrec 79%nat).
  assert (Hi : (2 <= 79 < List.length
                  (fib_exact 79 0 1 ++ [14472334024676220%Z]))%nat).
  { rewrite length_app, fib_exact_length. cbn. lia. }
  specialize (Hrec Hi). vm_compute in Hrec. discriminate Hrec.
Qed.

Lemma forallb_nth {A : Type} (p : A -> bool) (l : list A) (d : A) (i : nat) :
  forallb p l = true -> (i < List.length l)%nat -> p (nth i l d) = true.
Proof.
  intros Hall Hi. rewrite forallb_forall in Hall. apply Hall, nth_In, Hi.
Qed.

Lemma nth_skipn_add {A : Type} (k i : nat) (l : list A) (d : A) :
  nth i (skipn k l) d = nth (k + i) l d.
Proof.
  revert l. induction k as [|k IH]; intros l; [reflexivity|].
  destruct l as [|x l]; [destruct i; reflexivity|]. apply IH.
Qed.

(** The series as the doubles the loop computes: the 79 first elements are
    safe integers, and of the first 1000 elements those from index 79 on
    are above [MAX_SAFE_INTEGER]. *)
Lemma fib_seq_79_safe :
  forallb Num.isSafeInteger (fib_seq 79 (Int 0) (Int 1)) = true.
Proof. vm_compute. reflexivity. Qed.

Lemma fib_seq_1000_unsafe :
  forallb (fun x => gt x (Int MAX_SAFE_INTEGER) && negb (Num.isSafeInteger x))
          (skipn 79 (fib_seq 1000 (Int 0) (Int 1))) = true.
Proof. vm_compute. reflexivity. Qed.

(** C10.  For every integer [n] from 80 to 1000 the series answered to
    [{ fibonacci: n }] holds numbers above the safe-integer bound 2^53 - 1:
    the elements before index 79 are safe integers, the element at index 79
    and every later one is greater than 2^53 - 1. *)
Theorem fibonacci_exceeds_safe_range (fuel : nat) (cfg : config)
    (axios_post : jsstring -> axios_result) (n : Z) :
  (1001 <= fuel)%nat -> unset (EMAIL cfg) = false ->
  80 <= n <= MAX_FIBONACCI_INPUT ->
  exists series,
    post_bfhl fuel cfg axios_post (obj1 "fibonacci" (num n))
    = Ret (success cfg (VArray (map VNumber series)))
    /\ (forall i, (i < 79)%nat ->
        Num.isSafeInteger (nth i series NaN) = true)
    /\ (forall i, (79 <= i < List.length series)%nat ->
        gt (nth i series NaN) (Int MAX_SAFE_INTEGER) = true
        /\ Num.isSafeInteger (nth i series NaN) = false)
    /\ (79 < List.length series)%nat.
Proof.
  intros Hfuel Hcfg Hn. unfold MAX_FIBONACCI_INPUT in Hn.
  exists (fib_seq (Z.to_nat n) (Int 0) (Int 1)).
  rewrite post_bfhl_fibonacci by exact Hcfg.
  rewrite handle_fibonacci_valid by (unfold MAX_FIBONACCI_INPUT; lia).
  rewrite fib_seq_length.
  split; [reflexivity|].
  split; [|split; [|lia]].
  - intros i Hi. rewrite <- (nth_firstn_lt i 79) by lia.
    rewrite <- (fib_seq_prefix 79 (Z.to_nat n)) by lia.
    apply forallb_nth; [exact fib_seq_79_safe|].
    rewrite fib_seq_length. lia.
  - intros i Hi. rewrite (fib_seq_prefix (Z.to_nat n) 1000) by lia.
    rewrite nth_firstn_lt by lia.
    replace i with (79 + (i - 79))%nat by lia.
    rewrite <- nth_skipn_add.
    pose proof (forallb_nth _ _ NaN (i - 79) fib_seq_1000_unsafe) as H.
    cbv beta in H. rewrite andb_true_iff, negb_true_iff in H.
    apply H. rewrite length_skipn, fib_seq_length. lia.
Qed.

Lemma fibonacci_exceeds_safe_range_witness :
  exists series,
    post_bfhl 1001 example_config unreachable_service
      (obj1 "fibonacci" (num 80))
    = Ret (success example_config (VArray (map VNumber series)))
    /\ (forall i, (i < 79)%nat ->
        Num.isSafeInteger (nth i series NaN) = true)
    /\ (forall i, (79 <= i < List.length series)%nat ->
        gt (nth i series NaN) (Int MAX_SAFE_INTEGER) = true
        /\ Num.isSafeInteger (nth i series NaN) = false)
    /\ (79 < List.length series)%nat.
Proof.
  apply (fibonacci_exceeds_safe_range 1001 example_config
           unreachable_service 80).
  - apply le_n.
  - reflexivity.
  - unfold MAX_FIBONACCI_INPUT. split; discriminate.
Defined.

(** Up to index 78 the elements are the Fibonacci numbers; the element at
    index 79 is the double nearest to the Fibonacci number
    14472334024676221, which is not a double. *)
Example fibonacci_index_79 :
  fib_seq 79 (Int 0) (Int 1) = map Int (fib_exact 79 0 1)
  /\ nth 79 (fib_exact 80 0 1) 0 = 14472334024676221
  /\ nth 79 (fib_seq 80 (Int 0) (Int 1)) NaN = Int 14472334024676220.
Proof. repeat split; vm_compute; reflexivity. Qed.

(** ** C3: the prime filter *)

Lemma filter_run_isPrime (fuel : nat) (zs : list Z) :
  (1001 <= fuel)%nat ->
  Forall (fun z => Z.abs z <= MAX_ARRAY_VALUE) zs ->
  filter_run (isPrime fuel) (map num zs)
  = Ret (map num (filter spec_prime zs)).
Proof.
  intros Hfuel Hall. induction Hall as [|z zs Hz Hall IH]; [reflexivity|].
  cbn [map filter_run filter]. unfold num at 1.
  unfold MAX_ARRAY_VALUE in Hz.
  rewrite isPrime_int.
  - cbn [bind]. rewrite IH. cbn [bind].
    destruct (spec_prime z); reflexivity.
  - lia.
  - assert (Z.sqrt z <= 1000); [|lia].
    destruct (Z.lt_ge_cases z 0).
    + rewrite Z.sqrt_neg by lia. lia.
    + change 1000 with (Z.sqrt (1000 * 1000)).
      apply Z.sqrt_le_mono. lia.
Qed.

Lemma handle_prime_valid (fuel : nat) (zs : list Z) :
  (1001 <= fuel)%nat ->
  validateIntegerArray (arr zs) 0 = Valid ->
  handle_prime fuel (obj1 "prime" (arr zs))
  = Ret (inr (arr (filter spec_prime zs))).
Proof.
  intros Hfuel Hvalid. unfold handle_prime, obj1, get.
  cbn [lookup str jsstring_eqb].
  cbn -[validateIntegerArray arr filter_run].
  rewrite Hvalid.
  apply validateIntegerArray_valid in Hvalid.
  destruct Hvalid as [zs' [Heq [Hall _]]].
  unfold arr in Heq. injection Heq as Heq.
  apply map_num_inj in Heq. subst zs'.
  unfold arr at 1, elements. rewrite filter_run_isPrime by assumption.
  reflexivity.
Qed.

(** C3.  For every array that [validateIntegerArray] accepts with a minimum
    length of 0, the handler answers the request [{ prime: A }] with the
    elements of [A] that are prime in the sense of [spec_prime], in the
    order and with the multiplicity they have in [A]. *)
Theorem prime_filter (fuel : nat) (cfg : config)
    (axios_post : jsstring -> axios_result) (A : list value) :
  (1001 <= fuel)%nat -> unset (EMAIL cfg) = false ->
  validateIntegerArray (VArray A) 0 = Valid ->
  exists zs,
    A = map num zs
    /\ post_bfhl fuel cfg axios_post (obj1 "prime" (VArray A))
       = Ret (success cfg (arr (filter spec_prime zs))).
Proof.
  intros Hfuel Hcfg Hvalid.
  destruct (proj1 (validateIntegerArray_valid _ _) Hvalid)
    as [zs [Heq _]].
  unfold arr in Heq. injection Heq as ->.
  exists zs. split; [reflexivity|].
  rewrite post_bfhl_prime by exact Hcfg.
  change (VArray (map num zs)) with (arr zs) in *.
  rewrite handle_prime_valid by assumption. reflexivity.
Qed.

Lemma prime_filter_witness :
  exists zs,
    map num [2; 4; 7; 9; 11] = map num zs
    /\ post_bfhl 1001 example_config unreachable_service
         (obj1 "prime" (VArray (map num [2; 4; 7; 9; 11])))
       = Ret (success example_config (arr (filter spec_prime zs))).
Proof.
  apply (prime_filter 1001 example_config unreachable_service
           (map num [2; 4; 7; 9; 11])).
  - apply le_n.
  - reflexivity.
  - vm_compute. reflexivity.
Defined.

Example prime_scenario :
  post_bfhl 1001 example_config unreachable_service
    (obj1 "prime" (arr [2; 4; 7; 9; 11]))
  = Ret (success example_config (arr [2; 7; 11])).
Proof. vm_compute. reflexivity. Qed.

Example prime_negatives :
  post_bfhl 1001 example_config unreachable_service
    (obj1 "prime" (arr [-5; -3; 0; 1; 2; 2]))
  = Ret (success example_config (arr [2; 2])).
Proof. vm_compute. reflexivity. Qed.

(** ** C7: the HCF reduction *)

Lemma gcd_bound (a b m : Z) :
  Z.abs a <= m -> Z.abs b <= m -> Z.abs (Z.gcd a b) <= m.
Proof.
  intros Ha Hb. pose proof (Z.gcd_nonneg a b).
  rewrite Z.abs_eq by assumption.
  destruct (Z.eq_dec a 0) as [->|Hnz].
  - rewrite Z.gcd_0_l. exact Hb.
  - assert (Z.gcd a b <= Z.abs a); [|lia].
    apply Z.divide_pos_le; [lia|].
    apply Z.divide_abs_r, Z.gcd_divide_l.
Qed.

Lemma hcf_fold (fuel : nat) (zs : list Z) (acc : Z) :
  (128 <= fuel)%nat -> Z.abs acc <= MAX_ARRAY_VALUE ->
  Forall (fun z => Z.abs z <= MAX_ARRAY_VALUE) zs ->
  fold_left (fun acc b => a <- acc ;; gcd fuel a b) (map Int zs)
            (Ret (Int acc))
  = Ret (Int (fold_left Z.gcd zs acc)).
Proof.
  intros Hfuel Hacc Hall. revert acc Hacc.
  induction Hall as [|z zs Hz Hall IH]; intros acc Hacc; [reflexivity|].
  cbn [map fold_left bind]. unfold MAX_ARRAY_VALUE in *.
  rewrite gcd_int by lia.
  apply IH. apply gcd_bound; assumption.
Qed.

(** The HCF branch on a validated array: the left-to-right reduction by
    [Z.gcd], started from the first element. *)
Lemma handle_hcf_valid (fuel : nat) (x : Z) (zs : list Z) :
  (128 <= fuel)%nat ->
  validateIntegerArray (arr (x :: zs)) 1 = Valid ->
  handle_hcf fuel (obj1 "hcf" (arr (x :: zs)))
  = Ret (inr (num (fold_left Z.gcd zs x))).
Proof.
  intros Hfuel Hvalid. unfold handle_hcf, obj1, get.
  cbn [lookup str jsstring_eqb].
  cbn -[validateIntegerArray arr reduce].
  rewrite Hvalid.
  apply validateIntegerArray_valid in Hvalid.
  destruct Hvalid as [zs' [Heq [Hall _]]].
  unfold arr in Heq. injection Heq as Heq.
  apply (map_num_inj (x :: zs)) in Heq. subst zs'.
  apply Forall_cons_iff in Hall. destruct Hall as [Hx Hall].
  unfold arr, elements. rewrite as_number_num.
  cbn [map reduce].
  rewrite hcf_fold by assumption. reflexivity.
Qed.

(** The answer to a validated HCF request: the left-to-right reduction by
    the greatest common divisor, started from the first element. *)
Lemma hcf_reduction (fuel : nat) (cfg : config)
    (axios_post : jsstring -> axios_result) (x : Z) (rest : list Z) :
  (128 <= fuel)%nat -> unset (EMAIL cfg) = false ->
  validateIntegerArray (arr (x :: rest)) 1 = Valid ->
  post_bfhl fuel cfg axios_post (obj1 "hcf" (arr (x :: rest)))
  = Ret (success cfg (num (fold_left Z.gcd rest x))).
Proof.
  intros Hfuel Hcfg Hvalid.
  rewrite post_bfhl_hcf by exact Hcfg.
  rewrite handle_hcf_valid by assumption. reflexivity.
Qed.

(** The handler answers a one-element HCF request with the element itself:
    [reduce] returns the only element without calling [gcd]. *)
Lemma hcf_single (fuel : nat) (cfg : config)
    (axios_post : jsstring -> axios_result) (x : Z) :
  (128 <= fuel)%nat -> unset (EMAIL cfg) = false ->
  Z.abs x <= MAX_ARRAY_VALUE ->
  post_bfhl fuel cfg axios_post (obj1 "hcf" (arr [x]))
  = Ret (success cfg (num x)).
Proof.
  intros Hfuel Hcfg Hx.
  rewrite post_bfhl_hcf by exact Hcfg.
  rewrite handle_hcf_valid; [reflexivity | exact Hfuel |].
  apply validateIntegerArray_valid. exists [x].
  repeat split;
    [constructor; [exact Hx | constructor]
    | cbn; unfold MAX_ARRAY_LENGTH; lia | discriminate].
Qed.

(** C7.  The request [{ hcf: [-24] }] is answered with [-24], not with the
    absolute value 24. *)
Theorem hcf_single_negative :
  post_bfhl 1001 example_config unreachable_service (obj1 "hcf" (arr [-24]))
  = Ret (success example_config (num (-24))).
Proof. vm_compute. reflexivity. Qed.

(** With the element twice the answer is its absolute value. *)
Example hcf_pair_negative :
  post_bfhl 1001 example_config unreachable_service
    (obj1 "hcf" (arr [-24; -24]))
  = Ret (success example_config (num 24)).
Proof. vm_compute. reflexivity. Qed.

Example hcf_scenarios :
  post_bfhl 1001 example_config unreachable_service
    (obj1 "hcf" (arr [24; 36; 60]))
  = Ret (success example_config (num 12))
  /\ post_bfhl 1001 example_config unreachable_service
       (obj1 "hcf" (arr [0; 5]))
     = Ret (success example_config (num 5))
  /\ post_bfhl 1001 example_config unreachable_service
       (obj1 "hcf" (arr [0; 0]))
     = Ret (success example_config (num 0)).
Proof. repeat split; vm_compute; reflexivity. Qed.

(** ** C4 and C8: the LCM reduction *)

Lemma lcm_int (fuel : nat) (a b : Z) :
  (128 <= fuel)%nat -> Z.abs a < 2 ^ 53 -> Z.abs b < 2 ^ 53 ->
  lcm fuel (Int a) (Int b) = Ret (lcm_double a b).
Proof.
  intros Hfuel Ha Hb. unfold lcm, lcm_double. rewrite !strict_eq_int.
  destruct ((a =? 0) || (b =? 0)); [reflexivity|].
  rewrite gcd_int by assumption. reflexivity.
Qed.

(** When the product is below 2^53 nothing is rounded, and the value is
    the least common multiple. *)
Lemma lcm_double_exact (a b : Z) :
  Z.abs (a * b) < 2 ^ 53 -> lcm_double a b = Int (Z.lcm a b).
Proof.
  intros Hab. unfold lcm_double.
  destruct (Z.eqb_spec a 0) as [->|Ha]; [reflexivity|].
  destruct (Z.eqb_spec b 0) as [->|Hb]; [rewrite Z.lcm_0_r; reflexivity|].
  cbn [orb]. rewrite mul_exact by exact Hab. cbn [abs].
  pose proof (Z.gcd_nonneg a b) as Hg.
  assert (Hgnz : Z.gcd a b <> 0).
  { intros H0. apply Z.gcd_eq_0_l in H0. contradiction. }
  assert (Hdiv : (Z.gcd a b | b)) by apply Z.gcd_divide_r.
  rewrite div_exact.
  - f_equal. unfold Z.lcm. destruct Hdiv as [c Hc].
    set (g := Z.gcd a b) in *. rewrite Hc.
    rewrite Z.div_mul by exact Hgnz.
    replace (a * (c * g)) with (a * c * g) by ring.
    rewrite (Z.abs_mul (a * c) g), (Z.abs_eq g) by exact Hg.
    apply Z.div_mul. exact Hgnz.
  - lia.
  - apply Z.divide_abs_r. apply Z.divide_mul_r. exact Hdiv.
  - rewrite Z.abs_idemp. exact Hab.
Qed.

Lemma lcm_step_int (fuel : nat) (a b : Z) :
  (128 <= fuel)%nat -> Z.abs a < 2 ^ 53 -> Z.abs b < 2 ^ 53 ->
  lcm_step fuel (Int a) (Int b)
  = if Num.isSafeInteger (lcm_double a b) then Ret (lcm_double a b)
    else Throw plain_error.
Proof.
  intros Hfuel Ha Hb. unfold lcm_step. rewrite lcm_int by assumption.
  cbn [bind]. destruct (lcm_double a b) as [z| | |]; try reflexivity.
  cbn [Num.isFinite Num.isSafeInteger negb orb].
  destruct (Z.abs z <=? MAX_SAFE_INTEGER); reflexivity.
Qed.

Lemma fold_left_throw {B : Type} (f : number -> B -> run number)
    (l : list B) (e : js_error) :
  fold_left (fun acc b => a <- acc ;; f a b) l (Throw e) = Throw e.
Proof. induction l as [|b l IH]; [reflexivity | exact IH]. Qed.

Lemma last_default {A : Type} (l : list A) (y d d' : A) :
  last (y :: l) d = last (y :: l) d'.
Proof.
  revert y. induction l as [|z l IH]; intros y; [reflexivity|].
  change (last (z :: l) d = last (z :: l) d'). apply IH.
Qed.

Lemma last_cons {A : Type} (x d : A) (l : list A) :
  last (x :: l) d = last l x.
Proof.
  destruct l as [|y l]; [reflexivity|].
  change (last (y :: l) d = last (y :: l) x). apply last_default.
Qed.

(** The reduction by [lcm_step]: the last intermediate result when all of
    them are safe integers, an error otherwise. *)
Lemma lcm_fold (fuel : nat) (rest : list Z) (acc : Z) :
  (128 <= fuel)%nat -> Z.abs acc <= MAX_SAFE_INTEGER ->
  Forall (fun z => Z.abs z <= MAX_ARRAY_VALUE) rest ->
  fold_left (fun acc b => a <- acc ;; lcm_step fuel a b) (map Int rest)
            (Ret (Int acc))
  = if forallb Num.isSafeInteger (lcm_results acc rest)
    then Ret (last (lcm_results acc rest) (Int acc))
    else Throw plain_error.
Proof.
  intros Hfuel Hacc Hall. revert acc Hacc.
  induction Hall as [|b rest Hb Hall IH]; intros acc Hacc; [reflexivity|].
  cbn [map fold_left bind lcm_results].
  unfold MAX_ARRAY_VALUE, MAX_SAFE_INTEGER in *.
  rewrite lcm_step_int by lia.
  destruct (lcm_double acc b) as [z| | |] eqn:Hv;
    cbn [Num.isSafeInteger]; try apply fold_left_throw.
  unfold MAX_SAFE_INTEGER.
  destruct (Z.leb_spec (Z.abs z) (2 ^ 53 - 1)) as [Hz|Hz].
  - rewrite IH by exact Hz. cbn [forallb Num.isSafeInteger].
    unfold MAX_SAFE_INTEGER.
    destruct (Z.leb_spec (Z.abs z) (2 ^ 53 - 1)); [|lia]. cbn [andb].
    rewrite last_cons. reflexivity.
  - rewrite fold_left_throw. cbn [forallb Num.isSafeInteger].
    unfold MAX_SAFE_INTEGER.
    destruct (Z.leb_spec (Z.abs z) (2 ^ 53 - 1)); [lia|]. reflexivity.
Qed.

Lemma existsb_zero_value (zs : list Z) :
  existsb is_zero_value (map num zs) = existsb (Z.eqb 0) zs.
Proof.
  induction zs as [|z zs IH]; [reflexivity|].
  cbn [map existsb]. rewrite IH. f_equal.
  unfold num, is_zero_value. rewrite strict_eq_int. apply Z.eqb_sym.
Qed.

Lemma handle_lcm_valid (fuel : nat) (x : Z) (rest : list Z) :
  (128 <= fuel)%nat ->
  validateIntegerArray (arr (x :: rest)) 1 = Valid ->
  handle_lcm fuel (obj1 "lcm" (arr (x :: rest))) = Ret (lcm_answer x rest).
Proof.
  intros Hfuel Hvalid. unfold handle_lcm, obj1, get, lcm_answer.
  cbn [lookup str jsstring_eqb].
  cbn -[validateIntegerArray arr reduce existsb].
  rewrite Hvalid.
  apply validateIntegerArray_valid in Hvalid.
  destruct Hvalid as [zs' [Heq [Hall _]]].
  unfold arr in Heq. injection Heq as Heq.
  apply (map_num_inj (x :: rest)) in Heq.
  subst zs'. apply Forall_cons_iff in Hall. destruct Hall as [Hx Hall].
  unfold arr, elements. rewrite existsb_zero_value.
  destruct (existsb (Z.eqb 0) (x :: rest)); [reflexivity|].
  rewrite as_number_num. cbn [map reduce].
  rewrite lcm_fold; try assumption.
  - destruct (forallb Num.isSafeInteger (lcm_results x rest)); reflexivity.
  - unfold MAX_ARRAY_VALUE, MAX_SAFE_INTEGER in *. lia.
Qed.

(** C4, as amended.  For every array that [validateIntegerArray] accepts
    with a minimum length of 1: if an element is 0 the handler answers the
    request [{ lcm: A }] with 0; otherwise it reduces [A] from left to
    right with [|a * b| / gcd(a, b)] computed on doubles, answers with the
    last result when every intermediate result is a safe integer, and
    answers with 400 and the overflow message exactly when some
    intermediate result is not a safe integer: not finite, of magnitude
    above 2^53 - 1, or not a whole number. *)
Theorem lcm_reduction (fuel : nat) (cfg : config)
    (axios_post : jsstring -> axios_result) (A : list value) :
  (1001 <= fuel)%nat -> unset (EMAIL cfg) = false ->
  validateIntegerArray (VArray A) 1 = Valid ->
  exists x rest,
    A = map num (x :: rest)
    /\ (existsb (Z.eqb 0) (x :: rest) = true ->
        post_bfhl fuel cfg axios_post (obj1 "lcm" (VArray A))
        = Ret (success cfg (num 0)))
    /\ (existsb (Z.eqb 0) (x :: rest) = false ->
        (forallb Num.isSafeInteger (lcm_results x rest) = true ->
         post_bfhl fuel cfg axios_post (obj1 "lcm" (VArray A))
         = Ret (success cfg (VNumber (last (lcm_results x rest) (Int x)))))
        /\ (post_bfhl fuel cfg axios_post (obj1 "lcm" (VArray A))
            = Ret (failure 400 "LCM calculation overflow - values too large")
            <-> forallb Num.isSafeInteger (lcm_results x rest) = false)).
Proof.
  intros Hfuel Hcfg Hvalid.
  destruct (proj1 (validateIntegerArray_valid _ _) Hvalid)
    as [zs [Heq [_ [_ Hne]]]].
  destruct zs as [|x rest]; [exfalso; apply Hne; [lia | reflexivity]|].
  unfold arr in Heq. injection Heq as ->.
  exists x, rest. split; [reflexivity|].
  rewrite post_bfhl_lcm by exact Hcfg.
  change (VArray (num x :: map num rest)) with (arr (x :: rest)) in *.
  rewrite handle_lcm_valid by (assumption || lia).
  unfold lcm_answer, finish.
  split; [intros ->; reflexivity|].
  intros ->.
  destruct (forallb Num.isSafeInteger (lcm_results x rest)).
  - split; [reflexivity|]. split; discriminate.
  - split; [discriminate|]. split; reflexivity.
Qed.

Lemma lcm_reduction_witness :
  exists x rest,
    map num [12; 18; 24] = map num (x :: rest)
    /\ (existsb (Z.eqb 0) (x :: rest) = true ->
        post_bfhl 1001 example_config unreachable_service
          (obj1 "lcm" (VArray (map num [12; 18; 24])))
        = Ret (success example_config (num 0)))
    /\ (existsb (Z.eqb 0) (x :: rest) = false ->
        (forallb Num.isSafeInteger (lcm_results x rest) = true ->
         post_bfhl 1001 example_config unreachable_service
           (obj1 "lcm" (VArray (map num [12; 18; 24])))
         = Ret (success example_config
                  (VNumber (last (lcm_results x rest) (Int x)))))
        /\ (post_bfhl 1001 example_config unreachable_service
              (obj1 "lcm" (VArray (map num [12; 18; 24])))
            = Ret (failure 400 "LCM calculation overflow - values too large")
            <-> forallb Num.isSafeInteger (lcm_results x rest) = false)).
Proof.
  apply (lcm_reduction 1001 example_config unreachable_service
           (map num [12; 18; 24])).
  - apply le_n.
  - reflexivity.
  - vm_compute. reflexivity.
Defined.

Lemma lcm_le_product (a b : Z) : 0 <= Z.lcm a b <= Z.abs (a * b).
Proof.
  split; [apply Z.lcm_nonneg|].
  destruct (Z.eq_dec (a * b) 0) as [H0|Hnz].
  - apply Z.mul_eq_0 in H0. destruct H0 as [->| ->].
    + rewrite Z.lcm_0_l. cbn. lia.
    + rewrite Z.lcm_0_r, Z.mul_0_r. cbn. lia.
  - apply Z.divide_pos_le; [lia|].
    apply Z.divide_abs_r, Z.lcm_least.
    + apply Z.divide_factor_l.
    + apply Z.divide_factor_r.
Qed.

(** While the products stay below 2^53 the intermediate results are the
    least common multiples. *)
Lemma lcm_results_exact (rest : list Z) (acc : Z) :
  products_exact acc rest ->
  lcm_results acc rest = map Int (lcm_exact_results acc rest).
Proof.
  revert acc. induction rest as [|b rest IH]; intros acc Hp; [reflexivity|].
  destruct Hp as [Hab Hp].
  cbn [lcm_results lcm_exact_results map].
  rewrite lcm_double_exact by exact Hab.
  pose proof (lcm_le_product acc b).
  unfold MAX_SAFE_INTEGER.
  destruct (Z.leb_spec (Z.abs (Z.lcm acc b)) (2 ^ 53 - 1)); [|lia].
  rewrite IH by exact Hp. reflexivity.
Qed.

Lemma lcm_exact_results_safe (rest : list Z) (acc : Z) :
  products_exact acc rest ->
  forallb Num.isSafeInteger (map Int (lcm_exact_results acc rest)) = true.
Proof.
  revert acc. induction rest as [|b rest IH]; intros acc Hp; [reflexivity|].
  destruct Hp as [Hab Hp]. cbn [lcm_exact_results map forallb].
  pose proof (lcm_le_product acc b).
  cbn [Num.isSafeInteger]. unfold MAX_SAFE_INTEGER.
  destruct (Z.leb_spec (Z.abs (Z.lcm acc b)) (2 ^ 53 - 1)); [|lia].
  cbn [andb]. apply IH. exact Hp.
Qed.

Lemma last_map {A B : Type} (f : A -> B) (l : list A) (d : A) :
  last (map f l) (f d) = f (last l d).
Proof.
  revert d. induction l as [|y l IH]; intros d; [reflexivity|].
  cbn [map]. rewrite !last_cons. apply IH.
Qed.

(** On such an array without a zero, the answer is the least common
    multiple of the elements. *)
Lemma lcm_exact (fuel : nat) (cfg : config)
    (axios_post : jsstring -> axios_result) (x : Z) (rest : list Z) :
  (1001 <= fuel)%nat -> unset (EMAIL cfg) = false ->
  validateIntegerArray (arr (x :: rest)) 1 = Valid ->
  existsb (Z.eqb 0) (x :: rest) = false -> products_exact x rest ->
  post_bfhl fuel cfg axios_post (obj1 "lcm" (arr (x :: rest)))
  = Ret (success cfg (num (last (lcm_exact_results x rest) x))).
Proof.
  intros Hfuel Hcfg Hvalid Hzero Hp.
  rewrite post_bfhl_lcm by exact Hcfg.
  rewrite handle_lcm_valid by (assumption || lia).
  unfold lcm_answer. rewrite Hzero, (lcm_results_exact rest x Hp).
  rewrite (lcm_exact_results_safe rest x Hp).
  rewrite (last_map Int). reflexivity.
Qed.

(** C4, as stated, fails on [[222437, 918065, 49745]]: no element is 0,
    every intermediate result is finite and of magnitude at most 2^53 - 1,
    on doubles as in exact arithmetic, and the request is answered with the
    overflow error.  The second product, 204211624405 * 49745, is above
    2^53 and is rounded; its quotient by the gcd 5 is the double
    2031701451205344.75, which is not a whole number, while the least
    common multiple is 2031701451205345. *)
Lemma lcm_overflow_within_safe_range :
  validateIntegerArray (arr [222437; 918065; 49745]) 1 = Valid
  /\ existsb (Z.eqb 0) [222437; 918065; 49745] = false
  /\ lcm_results 222437 [918065; 49745]
     = [Int 204211624405; Frac (8126805804821379 # 4)]
  /\ forallb within_safe_range (lcm_results 222437 [918065; 49745]) = true
  /\ lcm_exact_results 222437 [918065; 49745]
     = [204211624405; 2031701451205345]
  /\ post_bfhl 1001 example_config unreachable_service
       (obj1 "lcm" (arr [222437; 918065; 49745]))
     = Ret (failure 400 "LCM calculation overflow - values too large").
Proof. repeat split; vm_compute; reflexivity. Qed.

(** The guard lets a rounded result through when it is a whole number: the
    least common multiple of 120261, 645070 and 615942 is
    7963797787008390. *)
Example lcm_rounded :
  post_bfhl 1001 example_config unreachable_service
    (obj1 "lcm" (arr [120261; 645070; 615942]))
  = Ret (success example_config (num 7963797787008389))
  /\ lcm_exact_results 120261 [645070; 615942]
     = [77576763270; 7963797787008390].
Proof. split; vm_compute; reflexivity. Qed.

Example lcm_scenarios :
  post_bfhl 1001 example_config unreachable_service
    (obj1 "lcm" (arr [12; 18; 24]))
  = Ret (success example_config (num 72))
  /\ post_bfhl 1001 example_config unreachable_service
       (obj1 "lcm" (arr [0; 5]))
     = Ret (success example_config (num 0))
  /\ post_bfhl 1001 example_config unreachable_service
       (obj1 "lcm" (arr [-12; 18]))
     = Ret (success example_config (num 36)).
Proof. repeat split; vm_compute; reflexivity. Qed.

(** The handler answers a one-element LCM request with the element itself:
    [reduce] returns the only element without calling [lcm]. *)
Lemma lcm_single (fuel : nat) (cfg : config)
    (axios_post : jsstring -> axios_result) (x : Z) :
  (128 <= fuel)%nat -> unset (EMAIL cfg) = false ->
  Z.abs x <= MAX_ARRAY_VALUE ->
  post_bfhl fuel cfg axios_post (obj1 "lcm" (arr [x]))
  = Ret (success cfg (num x)).
Proof.
  intros Hfuel Hcfg Hx.
  rewrite post_bfhl_lcm by exact Hcfg.
  rewrite handle_lcm_valid; [| exact Hfuel |].
  - unfold lcm_answer, finish. cbn [existsb orb lcm_results forallb last].
    destruct (Z.eqb_spec 0 x) as [<-|]; reflexivity.
  - apply validateIntegerArray_valid. exists [x].
    repeat split;
      [constructor; [exact Hx | constructor]
      | cbn; unfold MAX_ARRAY_LENGTH; lia | discriminate].
Qed.

(** C8.  The request [{ lcm: [-12] }] is answered with [-12], not with the
    absolute value 12. *)
Theorem lcm_single_negative :
  post_bfhl 1001 example_config unreachable_service (obj1 "lcm" (arr [-12]))
  = Ret (success example_config (num (-12))).
Proof. vm_compute. reflexivity. Qed.

(** With the element twice the answer is its absolute value. *)
Example lcm_pair_negative :
  post_bfhl 1001 example_config unreachable_service
    (obj1 "lcm" (arr [-12; -12]))
  = Ret (success example_config (num 12)).
Proof. vm_compute. reflexivity. Qed.

(** ** C5 and C6: the AI branch *)

(** The AI branch up to the call of the answer service. *)
Lemma handle_AI_call (cfg : config) (axios_post : jsstring -> axios_result)
    (q : jsstring) :
  unset (GEMINI_API_KEY cfg) = false -> valid_question q ->
  handle_AI cfg axios_post (obj1 "AI" (VString q))
  = match axios_post (prompt q) with
    | Rejected e => Ret (inl (ai_catch e))
    | Resolved response_data => Ret (extract_answer response_data)
    end.
Proof.
  intros Hkey [Hne Hlen]. unfold handle_AI, obj1, get.
  cbn [lookup str jsstring_eqb].
  cbn -[trim prompt extract_answer ai_catch Z.of_nat].
  destruct (trim q) as [|c t] eqn:Ht; [contradiction|].
  cbn [List.length Nat.eqb].
  destruct (Z.gtb_spec (Z.of_nat (List.length q)) MAX_AI_QUESTION_LENGTH);
    [lia|].
  rewrite Hkey. reflexivity.
Qed.



(** The timeout is what answers 504: the service that replies after
    10001 ms to a call of 10000 ms is answered 504 above, and the same
    reply after 10000 ms is the answer of the request. *)
Example ai_within_budget :
  post_bfhl 0 example_config
    (axios_post_to
       (fun _ => {| outcome := Responds 200
                                 (reply_with (VString (str "Mumbai")));
                    elapsed := 10000 |}))
    (obj1 "AI" (VString (str "What is the capital of Maharashtra?")))
  = Ret (success example_config (VString (str "Mumbai"))).
Proof. vm_compute. reflexivity. Qed.

Example ai_timeout :
  post_bfhl 0 example_config
    (failing {| err_response := VUndefined;
                err_code := VString (str "ECONNABORTED") |})
    (obj1 "AI" (VString (str "What is the capital of Maharashtra?")))
  = Ret (failure 504 "AI service timeout").
Proof. vm_compute. reflexivity. Qed.

(** The first piece of the split is the first token. *)
Lemma hd_split_ws_from (cur s : jsstring) :
  hd [] (split_ws_from false cur s) = rev cur ++ first_token s.
Proof.
  revert cur. induction s as [|c s IH]; intros cur.
  - cbn. rewrite app_nil_r. reflexivity.
  - cbn [split_ws_from first_token]. destruct (isWhiteSpace c).
    + cbn [hd]. rewrite app_nil_r. reflexivity.
    + rewrite IH. cbn [rev]. rewrite <- app_assoc. reflexivity.
Qed.

Lemma hd_split_ws (s : jsstring) : hd [] (split_ws s) = first_token s.
Proof. unfold split_ws. apply hd_split_ws_from. Qed.

(** The extraction on a reply whose text is a non-empty string. *)
Lemma extract_answer_text (response_data : value) (s : jsstring) :
  reply_text response_data = VString s -> s <> [] ->
  extract_answer response_data
  = inr (VString (or_unknown (replace_punctuation (first_token (trim s))))).
Proof.
  intros Htext Hne. unfold extract_answer. rewrite Htext.
  destruct s as [|c s]; [contradiction|].
  cbn [truthy List.length Nat.eqb negb].
  rewrite hd_split_ws.
  destruct (replace_punctuation (first_token (trim (c :: s)))); reflexivity.
Qed.

(** C6, as amended.  When the answer service replies and the text of the
    reply is a non-empty string, the handler answers with the first
    white-space-delimited token of the trimmed text from which every
    occurrence of the characters . , ! ? ; : has been removed, wherever it
    is in the token; when nothing is left it answers with ["Unknown"]. *)
Theorem ai_answer (fuel : nat) (cfg : config)
    (axios_post : jsstring -> axios_result) (q : jsstring)
    (response_data : value) (s : jsstring) :
  unset (EMAIL cfg) = false -> unset (GEMINI_API_KEY cfg) = false ->
  valid_question q -> axios_post (prompt q) = Resolved response_data ->
  reply_text response_data = VString s -> s <> [] ->
  post_bfhl fuel cfg axios_post (obj1 "AI" (VString q))
  = Ret (success cfg
           (VString (or_unknown
                       (replace_punctuation (first_token (trim s)))))).
Proof.
  intros Hcfg Hkey Hq Hcall Htext Hne.
  rewrite post_bfhl_AI by exact Hcfg.
  rewrite handle_AI_call by assumption. rewrite Hcall.
  rewrite (extract_answer_text _ s) by assumption. reflexivity.
Qed.

Lemma ai_answer_witness :
  post_bfhl 0 example_config (answering "  Mumbai.  It is the capital.")
    (obj1 "AI" (VString (str "What is the capital of Maharashtra?")))
  = Ret (success example_config (VString (str "Mumbai"))).
Proof.
  apply (ai_answer 0 example_config
           (answering "  Mumbai.  It is the capital.")
           (str "What is the capital of Maharashtra?")
           (reply_with (VString (str "  Mumbai.  It is the capital.")))
           (str "  Mumbai.  It is the capital.")).
  - reflexivity.
  - reflexivity.
  - split; [discriminate | vm_compute; discriminate].
  - reflexivity.
  - reflexivity.
  - discriminate.
Defined.

(** C6, as stated, fails on the reply ["3.14"]: the token without its
    trailing punctuation is ["3.14"], and the handler answers ["314"].  It
    also fails on the empty reply: the extraction of the specification
    yields the empty token and so ["Unknown"], and the handler answers with
    the status 500. *)
Lemma reply_extraction_differs :
  spec_answer (str "3.14") = str "3.14"
  /\ post_bfhl 0 example_config (answering "3.14")
       (obj1 "AI" (VString (str "What is pi?")))
     = Ret (success example_config (VString (str "314")))
  /\ post_bfhl 0 example_config (answering "3.14")
       (obj1 "AI" (VString (str "What is pi?")))
     <> Ret (success example_config (VString (spec_answer (str "3.14"))))
  /\ spec_answer (str "") = str "Unknown"
  /\ post_bfhl 0 example_config (answering "")
       (obj1 "AI" (VString (str "What is pi?")))
     = Ret (failure 500 "AI service returned invalid response").
Proof.
  repeat split; try (vm_compute; reflexivity).
  vm_compute. discriminate.
Qed.

(** A text of white space or punctuation only is answered with
    ["Unknown"], and a text that is not a string with 503: the call of
    [trim] raises inside the [try] block of the call. *)
Example ai_other_replies :
  post_bfhl 0 example_config (answering " ... ")
    (obj1 "AI" (VString (str "What is pi?")))
  = Ret (success example_config (VString (str "Unknown")))
  /\ post_bfhl 0 example_config (fun _ => Resolved (reply_with (num 42)))
       (obj1 "AI" (VString (str "What is pi?")))
     = Ret (failure 503 "AI service unavailable").
Proof. split; vm_compute; reflexivity. Qed.

(** ** C9: the envelope *)

Lemma early_ok (code : Z) (message : string) :
  branch_ok (Ret (inl (failure code message))).
Proof.
  exists (inl (failure code message)). split; [reflexivity|].
  exists code, message. reflexivity.
Qed.

Lemma failure_envelope (cfg : config) (code : Z) (message : string) :
  envelope cfg (failure code message).
Proof. split; [discriminate | reflexivity]. Qed.

Lemma finish_envelope (cfg : config) (r : run (response + value)) :
  unset (EMAIL cfg) = false -> branch_ok r ->
  exists resp, finish cfg r = Ret resp /\ envelope cfg resp.
Proof.
  intros Hcfg [[early|result] [-> Hx]]; cbn [finish].
  - destruct Hx as [code [message ->]].
    eexists. split; [reflexivity | apply failure_envelope].
  - eexists. split; [reflexivity|].
    unfold envelope, success. cbn.
    repeat split; try assumption.
    destruct result; (contradiction || discriminate).
Qed.

Lemma handle_fibonacci_ok (fuel : nat) (v : value) :
  (1001 <= fuel)%nat -> branch_ok (handle_fibonacci fuel (obj1 "fibonacci" v)).
Proof.
  intros Hfuel.
  destruct (isSafeInteger v) eqn:Hsafe.
  - apply isSafeInteger_inv in Hsafe. destruct Hsafe as [n [-> Hn]].
    fold (num n).
    destruct (Z.ltb_spec n 0) as [Hneg|Hpos];
      [|destruct (Z.ltb_spec MAX_FIBONACCI_INPUT n) as [Hbig|Hok]].
    + unfold handle_fibonacci, obj1, get. cbn [lookup str jsstring_eqb].
      cbn -[isSafeInteger num]. rewrite isSafeInteger_num.
      destruct (Z.leb_spec (Z.abs n) MAX_SAFE_INTEGER); [|lia].
      cbn [negb num as_number]. rewrite lt_int.
      destruct (Z.ltb_spec n 0); [|lia]. apply early_ok.
    + unfold handle_fibonacci, obj1, get. cbn [lookup str jsstring_eqb].
      cbn -[isSafeInteger num]. rewrite isSafeInteger_num.
      destruct (Z.leb_spec (Z.abs n) MAX_SAFE_INTEGER); [|lia].
      cbn [negb num as_number]. rewrite lt_int, gt_int.
      destruct (Z.ltb_spec n 0); [lia|].
      destruct (Z.ltb_spec MAX_FIBONACCI_INPUT n); [|lia]. apply early_ok.
    + rewrite handle_fibonacci_valid.
      * eexists. split; [reflexivity | discriminate].
      * lia.
      * unfold MAX_FIBONACCI_INPUT in *. lia.
  - unfold handle_fibonacci, obj1, get. cbn [lookup str jsstring_eqb].
    cbn -[isSafeInteger]. rewrite Hsafe. apply early_ok.
Qed.

Lemma handle_prime_ok (fuel : nat) (v : value) :
  (1001 <= fuel)%nat -> branch_ok (handle_prime fuel (obj1 "prime" v)).
Proof.
  intros Hfuel.
  destruct (validateIntegerArray v 0) as [|e] eqn:Hvalid.
  - destruct (proj1 (validateIntegerArray_valid _ _) Hvalid) as [zs [-> _]].
    rewrite handle_prime_valid by assumption.
    eexists. split; [reflexivity | discriminate].
  - unfold handle_prime, obj1, get. cbn [lookup str jsstring_eqb].
    cbn -[validateIntegerArray]. rewrite Hvalid. apply early_ok.
Qed.

Lemma handle_lcm_ok (fuel : nat) (v : value) :
  (1001 <= fuel)%nat -> branch_ok (handle_lcm fuel (obj1 "lcm" v)).
Proof.
  intros Hfuel.
  destruct (validateIntegerArray v 1) as [|e] eqn:Hvalid.
  - destruct (proj1 (validateIntegerArray_valid _ _) Hvalid)
      as [zs [-> [_ [_ Hne]]]].
    destruct zs as [|x rest]; [exfalso; apply Hne; [lia|reflexivity]|].
    rewrite handle_lcm_valid by (assumption || lia).
    unfold lcm_answer.
    destruct (existsb (Z.eqb 0) (x :: rest));
      [eexists; split; [reflexivity | discriminate]|].
    destruct (forallb Num.isSafeInteger (lcm_results x rest));
      [eexists; split; [reflexivity | discriminate] | apply early_ok].
  - unfold handle_lcm, obj1, get. cbn [lookup str jsstring_eqb].
    cbn -[validateIntegerArray]. rewrite Hvalid. apply early_ok.
Qed.

Lemma handle_hcf_ok (fuel : nat) (v : value) :
  (1001 <= fuel)%nat -> branch_ok (handle_hcf fuel (obj1 "hcf" v)).
Proof.
  intros Hfuel.
  destruct (validateIntegerArray v 1) as [|e] eqn:Hvalid.
  - destruct (proj1 (validateIntegerArray_valid _ _) Hvalid)
      as [zs [-> [_ [_ Hne]]]].
    destruct zs as [|x rest]; [exfalso; apply Hne; [lia|reflexivity]|].
    rewrite handle_hcf_valid by (assumption || lia).
    eexists. split; [reflexivity | discriminate].
  - unfold handle_hcf, obj1, get. cbn [lookup str jsstring_eqb].
    cbn -[validateIntegerArray]. rewrite Hvalid. apply early_ok.
Qed.

Lemma ai_catch_failure (e : js_error) :
  exists code message, ai_catch e = failure code message.
Proof.
  unfold ai_catch. destruct (truthy (err_response e)); [eauto|].
  destruct (is_string_value (err_code e) "ECONNABORTED"); eauto.
Qed.

Lemma handle_AI_ok (cfg : config) (axios_post : jsstring -> axios_result)
    (v : value) :
  branch_ok (handle_AI cfg axios_post (obj1 "AI" v)).
Proof.
  unfold handle_AI, obj1, get. cbn [lookup str jsstring_eqb].
  cbn -[trim prompt extract_answer ai_catch Z.of_nat decimal].
  destruct v as [| | | |q| |]; try apply early_ok.
  destruct (Nat.eqb (List.length (trim q)) 0); [apply early_ok|].
  destruct (Z.of_nat (List.length q) >? MAX_AI_QUESTION_LENGTH);
    [apply early_ok|].
  destruct (unset (GEMINI_API_KEY cfg)); [apply early_ok|].
  destruct (axios_post (prompt q)) as [response_data|e].
  - unfold extract_answer.
    destruct (truthy (reply_text response_data)); cbn [negb];
      [|apply early_ok].
    destruct (reply_text response_data);
      try (eexists; split; [reflexivity | apply ai_catch_failure]).
    destruct (negb _ || _);
      eexists; (split; [reflexivity | discriminate]).
  - eexists. split; [reflexivity | apply ai_catch_failure].
Qed.

(** With enough fuel the handler answers every body, and its answer
    satisfies the envelope invariant. *)
Lemma post_bfhl_envelope (fuel : nat) (cfg : config)
    (axios_post : jsstring -> axios_result) (body : value) :
  (1001 <= fuel)%nat ->
  exists r, post_bfhl fuel cfg axios_post body = Ret r /\ envelope cfg r.
Proof.
  intros Hfuel.
  assert (Hfail : forall code message,
             exists r, Ret (failure code message) = Ret r /\ envelope cfg r).
  { intros code message.
    exists (failure code message).
    split; [reflexivity | apply failure_envelope]. }
  destruct (unset (EMAIL cfg)) eqn:Hcfg.
  { unfold post_bfhl, post_bfhl_try. rewrite Hcfg. apply Hfail. }
  destruct body as [| |b|x|s|elems|fields];
    try (unfold post_bfhl, post_bfhl_try; rewrite Hcfg; cbn; apply Hfail).
  - destruct b; unfold post_bfhl, post_bfhl_try; rewrite Hcfg; cbn;
      apply Hfail.
  - unfold post_bfhl, post_bfhl_try; rewrite Hcfg.
    destruct (truthy (VNumber x)); cbn; apply Hfail.
  - unfold post_bfhl, post_bfhl_try; rewrite Hcfg.
    destruct (truthy (VString s)); cbn; apply Hfail.
  - destruct elems as [|v [|v' elems]];
      unfold post_bfhl, post_bfhl_try; rewrite Hcfg.
    + cbn. apply Hfail.
    + vm_compute. apply Hfail.
    + cbn [truthy typeof_object negb orb Object_keys List.length seq map
             Nat.eqb Nat.ltb Nat.leb]. apply Hfail.
  - destruct fields as [|[k v] [|kv fields]].
    + unfold post_bfhl, post_bfhl_try; rewrite Hcfg. cbn. apply Hfail.
    + destruct (existsb (fun k' => jsstring_eqb (str k') k) allowedKeys)
        eqn:Hallowed.
      * apply existsb_exists in Hallowed.
        destruct Hallowed as [k' [Hin Hk]].
        apply jsstring_eqb_eq in Hk. subst k.
        change (VObject [(str k', v)]) with (obj1 k' v).
        unfold allowedKeys in Hin. cbn [In] in Hin.
        destruct Hin as [<-|[<-|[<-|[<-|[<-|[]]]]]].
        -- rewrite post_bfhl_fibonacci by exact Hcfg.
           apply finish_envelope, handle_fibonacci_ok; assumption.
        -- rewrite post_bfhl_prime by exact Hcfg.
           apply finish_envelope, handle_prime_ok; assumption.
        -- rewrite post_bfhl_lcm by exact Hcfg.
           apply finish_envelope, handle_lcm_ok; assumption.
        -- rewrite post_bfhl_hcf by exact Hcfg.
           apply finish_envelope, handle_hcf_ok; assumption.
        -- rewrite post_bfhl_AI by exact Hcfg.
           apply finish_envelope, handle_AI_ok; assumption.
      * unfold post_bfhl, post_bfhl_try; rewrite Hcfg.
        cbn [truthy typeof_object negb orb Object_keys List.length map fst
               Nat.eqb Nat.ltb Nat.leb hd].
        rewrite Hallowed. cbn [negb]. apply Hfail.
    + unfold post_bfhl, post_bfhl_try; rewrite Hcfg.
      cbn [truthy typeof_object negb orb Object_keys List.length map fst
             Nat.eqb Nat.ltb Nat.leb]. apply Hfail.
Qed.

(** C9, as amended.  With enough fuel every request is answered.  The
    answers of [POST /bfhl], of the error handler and of the 404 fallback
    satisfy the envelope invariant: a success has [is_success] true, the
    configured identity, a [data] field and no [error] field, and a
    failure has [is_success] false, an [error] field and no [data] field.
    The answer of [GET /health] is a failure of the same shape or a
    success that carries the identity and neither [data] nor [error]. *)
Theorem response_envelope (fuel : nat) (cfg : config)
    (axios_post : jsstring -> axios_result) (req : request) :
  (1001 <= fuel)%nat ->
  exists r,
    serve fuel cfg axios_post req = Ret r
    /\ match req with
       | GET_health => health_envelope cfg r
       | _ => envelope cfg r
       end.
Proof.
  intros Hfuel. destruct req as [|body|e|]; cbn [serve].
  - exists (get_health cfg). split; [reflexivity|].
    unfold get_health, health_envelope.
    destruct (unset (EMAIL cfg)) eqn:Hcfg; cbn.
    + split; [discriminate | reflexivity].
    + repeat split. 
  - apply post_bfhl_envelope, Hfuel.
  - exists (error_handler e). split; [reflexivity|].
    destruct e; apply failure_envelope.
  - exists not_found. split; [reflexivity | apply failure_envelope].
Qed.

Lemma response_envelope_witness :
  exists r,
    serve 1001 example_config unreachable_service
      (POST_bfhl (obj1 "hcf" (arr [24; 36; 60]))) = Ret r
    /\ envelope example_config r.
Proof.
  apply (response_envelope 1001 example_config unreachable_service
           (POST_bfhl (obj1 "hcf" (arr [24; 36; 60])))).
  apply le_n.
Defined.

(** C9, as stated, fails on [GET /health]: on a configured server the
    answer is a success that has neither a [data] nor an [error] field. *)
Lemma health_success_without_data :
  serve 0 example_config unreachable_service GET_health
  = Ret (get_health example_config)
  /\ is_success (get_health example_config) = true
  /\ data (get_health example_config) = None
  /\ error (get_health example_config) = None
  /\ ~ envelope example_config (get_health example_config).
Proof.
  repeat split. intros [_ [_ [Hdata _]]]. apply Hdata. reflexivity.
Qed.

(* ================================================================== *)
(** ** Further properties of the code *)
(* ================================================================== *)

(** *** validateIntegerArray *)

(** X1.  [validateIntegerArray] accepts a value exactly when it is an array
    of at most [MAX_ARRAY_LENGTH] integers of magnitude at most
    [MAX_ARRAY_VALUE], not empty when [minLength] is positive. *)
Theorem validateIntegerArray_accepts (v : value) (minLength : Z) :
  validateIntegerArray v minLength = Valid <->
  exists zs, v = arr zs /\
             Forall (fun z => Z.abs z <= MAX_ARRAY_VALUE) zs /\
             Z.of_nat (List.length zs) <= MAX_ARRAY_LENGTH /\
             (0 < minLength -> zs <> []).
Proof. apply validateIntegerArray_valid. Qed.

Lemma validate_elements_offender (zs : list Z) (v : value)
    (rest : list value) (i : nat) :
  Forall (fun z => Z.abs z <= MAX_ARRAY_VALUE) zs ->
  validate_elements i (map num zs ++ v :: rest)
  = validate_elements (i + List.length zs) (v :: rest).
Proof.
  intros Hall. revert i.
  induction Hall as [|z zs Hz Hall IH]; intros i.
  - cbn [map app List.length]. rewrite Nat.add_0_r. reflexivity.
  - cbn [map app validate_elements]. rewrite isSafeInteger_num.
    unfold MAX_ARRAY_VALUE, MAX_SAFE_INTEGER in *.
    destruct (Z.leb_spec (Z.abs z) (2 ^ 53 - 1)); [|lia].
    cbn [negb num as_number abs]. rewrite gt_int.
    destruct (Z.ltb_spec 1000000 (Z.abs z)); [lia|].
    rewrite IH. cbn [List.length].
    replace (i + S (List.length zs))%nat with (S i + List.length zs)%nat
      by lia.
    reflexivity.
Qed.

(** X2.  The error of [validateIntegerArray] names the first offending
    index: when the elements before an element are integers of magnitude
    at most [MAX_ARRAY_VALUE] and the array is not too long, an element
    that is not a safe integer is reported as an invalid integer at its
    index, and a safe integer of greater magnitude as a value that exceeds
    the maximum at its index, whatever follows it. *)
Theorem validation_reports_first_offender (zs : list Z) (v : value)
    (rest : list value) (minLength : Z) :
  Forall (fun z => Z.abs z <= MAX_ARRAY_VALUE) zs ->
  Z.of_nat (List.length (map num zs ++ v :: rest)) <= MAX_ARRAY_LENGTH ->
  (isSafeInteger v = false ->
   validateIntegerArray (VArray (map num zs ++ v :: rest)) minLength
   = Invalid ("Invalid integer at index "
              ++ decimal (Z.of_nat (List.length zs))))
  /\ (isSafeInteger v = true ->
      gt (abs (as_number v)) (Int MAX_ARRAY_VALUE) = true ->
      validateIntegerArray (VArray (map num zs ++ v :: rest)) minLength
      = Invalid ("Value at index " ++ decimal (Z.of_nat (List.length zs))
                 ++ " exceeds maximum allowed value")).
Proof.
  intros Hall Hlen.
  assert (Hshape : validateIntegerArray (VArray (map num zs ++ v :: rest))
                     minLength
                   = validate_elements (List.length zs) (v :: rest)).
  { unfold validateIntegerArray.
    destruct (Z.eqb_spec
                (Z.of_nat (List.length (map num zs ++ v :: rest))) 0)
      as [H0|_].
    - rewrite length_app in H0. cbn [List.length] in H0. lia.
    - cbn [andb].
      destruct (Z.gtb_spec
                  (Z.of_nat (List.length (map num zs ++ v :: rest)))
                  MAX_ARRAY_LENGTH); [lia|].
      apply (validate_elements_offender zs v rest 0 Hall). }
  rewrite Hshape. cbn [validate_elements]. split.
  - intros ->. reflexivity.
  - intros -> ->. reflexivity.
Qed.

Lemma validation_reports_first_offender_witness :
  validateIntegerArray
    (VArray (map num [2; 3] ++ VNumber (Frac (7 # 2)) :: [num 5])) 1
  = Invalid "Invalid integer at index 2"
  /\ validateIntegerArray
       (VArray (map num [2; 3] ++ num 1000001 :: [VNull])) 1
     = Invalid "Value at index 2 exceeds maximum allowed value".
Proof.
  split.
  - apply (validation_reports_first_offender [2; 3]
             (VNumber (Frac (7 # 2))) [num 5] 1).
    + repeat constructor; discriminate.
    + discriminate.
    + reflexivity.
  - apply (validation_reports_first_offender [2; 3] (num 1000001) [VNull] 1).
    + repeat constructor; discriminate.
    + discriminate.
    + reflexivity.
    + reflexivity.
Defined.

(** X3.  The length is checked before the elements: an array of more than
    [MAX_ARRAY_LENGTH] elements is refused for its length, whatever its
    elements are and whatever the minimum length is. *)
Theorem validation_length_first (elems : list value) (minLength : Z) :
  MAX_ARRAY_LENGTH < Z.of_nat (List.length elems) ->
  validateIntegerArray (VArray elems) minLength
  = Invalid "Array length exceeds maximum of 1000".
Proof.
  intros Hlen. unfold validateIntegerArray, MAX_ARRAY_LENGTH in *.
  destruct (Z.eqb_spec (Z.of_nat (List.length elems)) 0); [lia|].
  cbn [andb].
  destruct (Z.gtb_spec (Z.of_nat (List.length elems)) 1000); [|lia].
  reflexivity.
Qed.

Lemma validation_length_first_witness :
  validateIntegerArray (VArray (repeat (VString (str "x")) 1001)) 1
  = Invalid "Array length exceeds maximum of 1000".
Proof.
  apply (validation_length_first (repeat (VString (str "x")) 1001) 1).
  rewrite repeat_length. reflexivity.
Defined.

(** *** isPrime, gcd and lcm *)

(** X4.  On an integer of magnitude at most 2^50, and with one unit of
    fuel for each number up to its square root, [isPrime] returns, and it
    returns [true] exactly when the integer is prime. *)
Theorem isPrime_decides_primality (fuel : nat) (z : Z) :
  Z.abs z <= 2 ^ 50 -> Z.sqrt z < Z.of_nat fuel ->
  exists b, isPrime fuel (num z) = Ret b /\ (b = true <-> Z.prime z).
Proof.
  intros Hz Hfuel. exists (spec_prime z). split.
  - apply isPrime_int; assumption.
  - apply spec_prime_iff_prime.
Qed.

Lemma isPrime_decides_primality_witness :
  exists b, isPrime 32 (num 997) = Ret b /\ (b = true <-> Z.prime 997).
Proof.
  apply (isPrime_decides_primality 32 997).
  - discriminate.
  - reflexivity.
Defined.

(** X5.  On safe integers, and with a fuel of 128 calls, [gcd] returns the
    greatest common divisor: a non-negative integer that divides both
    arguments and that every common divisor divides. *)
Theorem gcd_greatest_common_divisor (fuel : nat) (a b : Z) :
  Z.abs a < 2 ^ 53 -> Z.abs b < 2 ^ 53 -> (128 <= fuel)%nat ->
  exists g,
    gcd fuel (Int a) (Int b) = Ret (Int g)
    /\ 0 <= g /\ (g | a) /\ (g | b)
    /\ (forall d, (d | a) -> (d | b) -> (d | g)).
Proof.
  intros Ha Hb Hfuel. exists (Z.gcd a b).
  split; [apply gcd_int; assumption|].
  split; [apply Z.gcd_nonneg|].
  split; [apply Z.gcd_divide_l|].
  split; [apply Z.gcd_divide_r|].
  intros d Hda Hdb. apply Z.gcd_greatest; assumption.
Qed.

Lemma gcd_greatest_common_divisor_witness :
  exists g,
    gcd 128 (Int (-24)) (Int 36) = Ret (Int g)
    /\ 0 <= g /\ (g | -24) /\ (g | 36)
    /\ (forall d, (d | -24) -> (d | 36) -> (d | g)).
Proof.
  apply (gcd_greatest_common_divisor 128 (-24) 36).
  - reflexivity.
  - reflexivity.
  - apply le_n.
Defined.

(** X6.  On safe integers whose product is below 2^53 in magnitude, [lcm]
    returns the least common multiple: a non-negative integer that both
    arguments divide and that divides every common multiple. *)
Theorem lcm_least_common_multiple (fuel : nat) (a b : Z) :
  Z.abs a < 2 ^ 53 -> Z.abs b < 2 ^ 53 -> Z.abs (a * b) < 2 ^ 53 ->
  (128 <= fuel)%nat ->
  exists m,
    lcm fuel (Int a) (Int b) = Ret (Int m)
    /\ 0 <= m /\ (a | m) /\ (b | m)
    /\ (forall c, (a | c) -> (b | c) -> (m | c)).
Proof.
  intros Ha Hb Hab Hfuel. exists (Z.lcm a b).
  split.
  - rewrite lcm_int by assumption. rewrite lcm_double_exact by assumption.
    reflexivity.
  - split; [apply Z.lcm_nonneg|].
    split; [apply Z.divide_lcm_l|].
    split; [apply Z.divide_lcm_r|].
    intros c Hac Hbc. apply Z.lcm_least; assumption.
Qed.

Lemma lcm_least_common_multiple_witness :
  exists m,
    lcm 128 (Int (-12)) (Int 18) = Ret (Int m)
    /\ 0 <= m /\ (-12 | m) /\ (18 | m)
    /\ (forall c, (-12 | c) -> (18 | c) -> (m | c)).
Proof.
  apply (lcm_least_common_multiple 128 (-12) 18).
  - reflexivity.
  - reflexivity.
  - reflexivity.
  - apply le_n.
Defined.

(** *** The HCF branch *)

Lemma fold_gcd_spec (rest : list Z) (x : Z) :
  (fold_left Z.gcd rest x | x)
  /\ Forall (fun z => (fold_left Z.gcd rest x | z)) rest
  /\ (forall d, (d | x) -> Forall (fun z => (d | z)) rest ->
                (d | fold_left Z.gcd rest x)).
Proof.
  revert x. induction rest as [|b rest IH]; intros x.
  - cbn. split; [apply Z.divide_refl|]. split; [constructor|]. auto.
  - cbn [fold_left]. destruct (IH (Z.gcd x b)) as [Hx [Hrest Hgreat]].
    split; [|split].
    + apply (Z.divide_trans _ (Z.gcd x b)); [exact Hx|].
      apply Z.gcd_divide_l.
    + constructor; [|exact Hrest].
      apply (Z.divide_trans _ (Z.gcd x b)); [exact Hx|].
      apply Z.gcd_divide_r.
    + intros d Hdx Hall. apply Forall_cons_iff in Hall.
      destruct Hall as [Hdb Hall].
      apply Hgreat; [|exact Hall]. apply Z.gcd_greatest; assumption.
Qed.

(** X7.  The answer to a validated HCF request is a common divisor of all
    the elements of the array, and every common divisor of the elements
    divides it. *)
Theorem hcf_greatest_common_divisor (fuel : nat) (cfg : config)
    (axios_post : jsstring -> axios_result) (x : Z) (rest : list Z) :
  (128 <= fuel)%nat -> unset (EMAIL cfg) = false ->
  validateIntegerArray (arr (x :: rest)) 1 = Valid ->
  exists g,
    post_bfhl fuel cfg axios_post (obj1 "hcf" (arr (x :: rest)))
    = Ret (success cfg (num g))
    /\ Forall (fun z => (g | z)) (x :: rest)
    /\ (forall d, Forall (fun z => (d | z)) (x :: rest) -> (d | g)).
Proof.
  intros Hfuel Hcfg Hvalid. exists (fold_left Z.gcd rest x).
  rewrite post_bfhl_hcf by exact Hcfg.
  rewrite handle_hcf_valid by assumption.
  destruct (fold_gcd_spec rest x) as [Hx [Hrest Hgreat]].
  split; [reflexivity|]. split.
  - constructor; assumption.
  - intros d Hall. apply Forall_cons_iff in Hall.
    destruct Hall as [Hdx Hall]. apply Hgreat; assumption.
Qed.

Lemma hcf_greatest_common_divisor_witness :
  exists g,
    post_bfhl 128 example_config unreachable_service
      (obj1 "hcf" (arr [24; 36; 60]))
    = Ret (success example_config (num g))
    /\ Forall (fun z => (g | z)) [24; 36; 60]
    /\ (forall d, Forall (fun z => (d | z)) [24; 36; 60] -> (d | g)).
Proof.
  apply (hcf_greatest_common_divisor 128 example_config
           unreachable_service 24 [36; 60]).
  - apply le_n.
  - reflexivity.
  - vm_compute. reflexivity.
Defined.

Lemma fold_gcd_abs (rest : list Z) (acc : Z) :
  fold_left Z.gcd (map Z.abs rest) acc = fold_left Z.gcd rest acc.
Proof.
  revert acc. induction rest as [|b rest IH]; intros acc; [reflexivity|].
  cbn [map fold_left]. rewrite Z.gcd_abs_r. apply IH.
Qed.

Lemma fold_gcd_nonneg (rest : list Z) (acc : Z) :
  0 <= acc -> 0 <= fold_left Z.gcd rest acc.
Proof.
  revert acc. induction rest as [|b rest IH]; intros acc Hacc; [exact Hacc|].
  cbn [fold_left]. apply IH, Z.gcd_nonneg.
Qed.

Lemma valid_of_abs (zs zs' : list Z) (minLength : Z) :
  map Z.abs zs' = map Z.abs zs ->
  validateIntegerArray (arr zs) minLength = Valid ->
  validateIntegerArray (arr zs') minLength = Valid.
Proof.
  intros Habs Hvalid.
  apply validateIntegerArray_valid in Hvalid.
  destruct Hvalid as [ws [Heq [Hall [Hlen Hne]]]].
  unfold arr in Heq. injection Heq as Heq. apply map_num_inj in Heq.
  subst ws.
  apply validateIntegerArray_valid. exists zs'.
  assert (Hl : List.length zs' = List.length zs).
  { rewrite <- (length_map Z.abs zs'), Habs. apply length_map. }
  split; [reflexivity|]. split; [|split].
  - clear Hlen Hne Hl. revert zs Habs Hall.
    induction zs' as [|z' zs' IH]; intros [|z zs] Habs Hall;
      try discriminate; [constructor|].
    cbn [map] in Habs. injection Habs as Hz Habs.
    apply Forall_cons_iff in Hall. destruct Hall as [Hb Hall].
    constructor; [lia | exact (IH zs Habs Hall)].
  - lia.
  - intros Hpos ->. destruct zs; [apply (Hne Hpos); reflexivity|].
    discriminate.
Qed.

(** X8.  With two elements or more the answer to a validated HCF request
    is not negative and does not depend on the signs of the elements: an
    array with the same absolute values gets the same answer. *)
Theorem hcf_ignores_signs (fuel : nat) (cfg : config)
    (axios_post : jsstring -> axios_result) (zs zs' : list Z) :
  (128 <= fuel)%nat -> unset (EMAIL cfg) = false ->
  validateIntegerArray (arr zs) 1 = Valid ->
  (2 <= List.length zs)%nat -> map Z.abs zs' = map Z.abs zs ->
  exists g,
    0 <= g
    /\ post_bfhl fuel cfg axios_post (obj1 "hcf" (arr zs))
       = Ret (success cfg (num g))
    /\ post_bfhl fuel cfg axios_post (obj1 "hcf" (arr zs'))
       = Ret (success cfg (num g)).
Proof.
  intros Hfuel Hcfg Hvalid Hlen Habs.
  pose proof (valid_of_abs zs zs' 1 Habs Hvalid) as Hvalid'.
  destruct zs as [|x [|y rest]]; cbn [List.length] in Hlen; try lia.
  destruct zs' as [|x' [|y' rest']]; try discriminate.
  cbn [map] in Habs. injection Habs as Hx Hy Hrest.
  exists (fold_left Z.gcd (y :: rest) x).
  rewrite !post_bfhl_hcf by exact Hcfg.
  rewrite !handle_hcf_valid by assumption.
  split; [|split; [reflexivity|]].
  - cbn [fold_left]. apply fold_gcd_nonneg, Z.gcd_nonneg.
  - cbn [fold_left finish]. do 3 f_equal.
    rewrite <- (fold_gcd_abs rest'), <- (fold_gcd_abs rest), Hrest.
    f_equal.
    rewrite <- Z.gcd_abs_l, <- Z.gcd_abs_r, Hx, Hy.
    rewrite Z.gcd_abs_l, Z.gcd_abs_r. reflexivity.
Qed.

Lemma hcf_ignores_signs_witness :
  exists g,
    0 <= g
    /\ post_bfhl 128 example_config unreachable_service
         (obj1 "hcf" (arr [-24; 36]))
       = Ret (success example_config (num g))
    /\ post_bfhl 128 example_config unreachable_service
         (obj1 "hcf" (arr [24; -36]))
       = Ret (success example_config (num g)).
Proof.
  apply (hcf_ignores_signs 128 example_config unreachable_service
           [-24; 36] [24; -36]).
  - apply le_n.
  - reflexivity.
  - vm_compute. reflexivity.
  - apply le_n.
  - reflexivity.
Defined.

(** *** The LCM branch *)

Lemma product_nonzero (zs : list Z) :
  ~ In 0 zs -> 1 <= Z.abs (product zs).
Proof.
  induction zs as [|z zs IH]; intros Hnot.
  - cbn. lia.
  - cbn [product fold_right]. fold (product zs). rewrite Z.abs_mul.
    assert (z <> 0) by (intros ->; apply Hnot; left; reflexivity).
    assert (1 <= Z.abs (product zs))
      by (apply IH; intros Hin; apply Hnot; right; exact Hin).
    nia.
Qed.

Lemma products_exact_of_product (rest : list Z) (acc bound : Z) :
  ~ In 0 rest -> Z.abs acc <= bound ->
  bound * Z.abs (product rest) < 2 ^ 53 ->
  products_exact acc rest.
Proof.
  revert acc bound. induction rest as [|b rest IH];
    intros acc bound Hnot Hacc Hbound; [exact I|].
  cbn [product fold_right] in Hbound. fold (product rest) in Hbound.
  rewrite Z.abs_mul in Hbound.
  assert (Hb : b <> 0) by (intros ->; apply Hnot; left; reflexivity).
  assert (Hrest : ~ In 0 rest)
    by (intros Hin; apply Hnot; right; exact Hin).
  pose proof (product_nonzero rest Hrest) as Hp.
  assert (Hab : Z.abs (acc * b) <= bound * Z.abs b).
  { rewrite Z.abs_mul. apply Z.mul_le_mono_nonneg_r; lia. }
  cbn [products_exact]. split.
  - assert (bound * Z.abs b <= bound * (Z.abs b * Z.abs (product rest)))
      by nia.
    lia.
  - apply (IH (Z.lcm acc b) (bound * Z.abs b) Hrest).
    + pose proof (lcm_le_product acc b).
      rewrite Z.abs_eq by lia. lia.
    + rewrite <- Z.mul_assoc. exact Hbound.
Qed.

Lemma last_lcm_exact_results (rest : list Z) (x : Z) :
  last (lcm_exact_results x rest) x = fold_left Z.lcm rest x.
Proof.
  revert x. induction rest as [|b rest IH]; intros x; [reflexivity|].
  cbn [lcm_exact_results fold_left]. rewrite last_cons. apply IH.
Qed.

Lemma no_zero_existsb (zs : list Z) :
  ~ In 0 zs -> existsb (Z.eqb 0) zs = false.
Proof.
  intros Hnot. apply not_true_is_false. intros Hex.
  apply existsb_exists in Hex. destruct Hex as [z [Hin Hz]].
  apply Z.eqb_eq in Hz. subst z. exact (Hnot Hin).
Qed.

Lemma fold_lcm_spec (rest : list Z) (x : Z) :
  (x | fold_left Z.lcm rest x)
  /\ Forall (fun z => (z | fold_left Z.lcm rest x)) rest
  /\ (forall c, (x | c) -> Forall (fun z => (z | c)) rest ->
                (fold_left Z.lcm rest x | c)).
Proof.
  revert x. induction rest as [|b rest IH]; intros x.
  - cbn. split; [apply Z.divide_refl|]. split; [constructor|]. auto.
  - cbn [fold_left]. destruct (IH (Z.lcm x b)) as [Hx [Hrest Hleast]].
    split; [|split].
    + apply (Z.divide_trans _ (Z.lcm x b)); [|exact Hx].
      apply Z.divide_lcm_l.
    + constructor; [|exact Hrest].
      apply (Z.divide_trans _ (Z.lcm x b)); [|exact Hx].
      apply Z.divide_lcm_r.
    + intros c Hxc Hall. apply Forall_cons_iff in Hall.
      destruct Hall as [Hbc Hall].
      apply Hleast; [|exact Hall]. apply Z.lcm_least; assumption.
Qed.

Lemma fold_lcm_pos (rest : list Z) (acc : Z) :
  0 < acc -> ~ In 0 rest -> 0 < fold_left Z.lcm rest acc.
Proof.
  revert acc. induction rest as [|b rest IH]; intros acc Hacc Hnot;
    [exact Hacc|].
  cbn [fold_left]. apply IH.
  - pose proof (Z.lcm_nonneg acc b) as Hge.
    assert (Hne : Z.lcm acc b <> 0).
    { intros H0. apply Z.lcm_eq_0 in H0. destruct H0 as [H0|H0]; [lia|].
      apply Hnot. left. exact H0. }
    lia.
  - intros Hin. apply Hnot. right. exact Hin.
Qed.

(** X9.  When no element is 0 and the product of the elements is below
    2^53 in magnitude, no operation of the LCM reduction rounds: the
    answer to a validated LCM request is a common multiple of all the
    elements that divides every common multiple of them.  With two
    elements or more it is positive, and so it is their least common
    multiple; for a single element it is the element itself, with its
    sign. *)
Theorem lcm_exact_for_small_product (fuel : nat) (cfg : config)
    (axios_post : jsstring -> axios_result) (x : Z) (rest : list Z) :
  (1001 <= fuel)%nat -> unset (EMAIL cfg) = false ->
  validateIntegerArray (arr (x :: rest)) 1 = Valid ->
  ~ In 0 (x :: rest) -> Z.abs (product (x :: rest)) < 2 ^ 53 ->
  exists m,
    post_bfhl fuel cfg axios_post (obj1 "lcm" (arr (x :: rest)))
    = Ret (success cfg (num m))
    /\ Forall (fun z => (z | m)) (x :: rest)
    /\ (forall c, Forall (fun z => (z | c)) (x :: rest) -> (m | c))
    /\ (rest <> [] -> 0 < m)
    /\ (rest = [] -> m = x).
Proof.
  intros Hfuel Hcfg Hvalid Hnot Hprod.
  exists (fold_left Z.lcm rest x).
  rewrite (lcm_exact fuel cfg axios_post x rest Hfuel Hcfg Hvalid).
  - rewrite last_lcm_exact_results.
    destruct (fold_lcm_spec rest x) as [Hx [Hrest Hleast]].
    split; [reflexivity|].
    split; [constructor; assumption|].
    split; [|split].
    + intros c Hall. apply Forall_cons_iff in Hall.
      destruct Hall as [Hxc Hall]. apply Hleast; assumption.
    + intros Hne. destruct rest as [|b rest]; [contradiction|].
      cbn [fold_left]. apply fold_lcm_pos.
      * pose proof (Z.lcm_nonneg x b) as Hge.
        assert (Hnz : Z.lcm x b <> 0).
        { intros H0. apply Z.lcm_eq_0 in H0. apply Hnot.
          destruct H0 as [H0|H0]; [left | right; left]; exact H0. }
        lia.
      * intros Hin. apply Hnot. right. right. exact Hin.
    + intros ->. reflexivity.
  - apply no_zero_existsb, Hnot.
  - apply (products_exact_of_product rest x (Z.abs x)).
    + intros Hin. apply Hnot. right. exact Hin.
    + lia.
    + cbn [product fold_right] in Hprod. fold (product rest) in Hprod.
      rewrite Z.abs_mul in Hprod. exact Hprod.
Qed.

Lemma lcm_exact_for_small_product_witness :
  exists m,
    post_bfhl 1001 example_config unreachable_service
      (obj1 "lcm" (arr [12; -18; 24]))
    = Ret (success example_config (num m))
    /\ Forall (fun z => (z | m)) [12; -18; 24]
    /\ (forall c, Forall (fun z => (z | c)) [12; -18; 24] -> (m | c))
    /\ ([-18; 24] <> [] -> 0 < m)
    /\ ([-18; 24] = [] -> m = 12).
Proof.
  apply (lcm_exact_for_small_product 1001 example_config
           unreachable_service 12 [-18; 24]).
  - apply le_n.
  - reflexivity.
  - vm_compute. reflexivity.
  - cbn. intros H.
    repeat (destruct H as [H|H]; [discriminate H|]). exact H.
  - reflexivity.
Defined.

Lemma last_safe (l : list number) (d : number) :
  forallb Num.isSafeInteger l = true -> Num.isSafeInteger d = true ->
  Num.isSafeInteger (last l d) = true.
Proof.
  revert d. induction l as [|y l IH]; intros d Hall Hd; [exact Hd|].
  cbn [forallb] in Hall. apply andb_true_iff in Hall.
  destruct Hall as [Hy Hall]. rewrite last_cons. apply IH; assumption.
Qed.

(** X10.  A validated LCM request is answered either with the overflow
    error or with a safe integer: never with a fraction, an infinity or a
    number beyond 2^53 - 1. *)
Theorem lcm_answers_safe_integer (fuel : nat) (cfg : config)
    (axios_post : jsstring -> axios_result) (x : Z) (rest : list Z) :
  (128 <= fuel)%nat -> unset (EMAIL cfg) = false ->
  validateIntegerArray (arr (x :: rest)) 1 = Valid ->
  post_bfhl fuel cfg axios_post (obj1 "lcm" (arr (x :: rest)))
  = Ret (failure 400 "LCM calculation overflow - values too large")
  \/ exists z,
       Z.abs z <= MAX_SAFE_INTEGER
       /\ post_bfhl fuel cfg axios_post (obj1 "lcm" (arr (x :: rest)))
          = Ret (success cfg (num z)).
Proof.
  intros Hfuel Hcfg Hvalid.
  rewrite post_bfhl_lcm by exact Hcfg.
  rewrite handle_lcm_valid by assumption.
  assert (Hx : Z.abs x <= MAX_SAFE_INTEGER).
  { apply validateIntegerArray_valid in Hvalid.
    destruct Hvalid as [zs [Heq [Hall _]]].
    unfold arr in Heq. injection Heq as Heq.
    apply (map_num_inj (x :: rest)) in Heq. subst zs.
    apply Forall_cons_iff in Hall.
    unfold MAX_ARRAY_VALUE, MAX_SAFE_INTEGER in *. lia. }
  unfold lcm_answer.
  destruct (existsb (Z.eqb 0) (x :: rest)).
  - right. exists 0. split; [unfold MAX_SAFE_INTEGER; lia | reflexivity].
  - destruct (forallb Num.isSafeInteger (lcm_results x rest)) eqn:Hall.
    + right.
      assert (Hlast : Num.isSafeInteger (last (lcm_results x rest) (Int x))
                      = true).
      { apply last_safe; [exact Hall|]. cbn. apply Z.leb_le. exact Hx. }
      destruct (last (lcm_results x rest) (Int x)) as [z| | |];
        try discriminate.
      exists z. split; [apply Z.leb_le; exact Hlast | reflexivity].
    + left. reflexivity.
Qed.

Lemma lcm_answers_safe_integer_witness :
  post_bfhl 128 example_config unreachable_service
    (obj1 "lcm" (arr [120261; 645070; 615942]))
  = Ret (failure 400 "LCM calculation overflow - values too large")
  \/ exists z,
       Z.abs z <= MAX_SAFE_INTEGER
       /\ post_bfhl 128 example_config unreachable_service
            (obj1 "lcm" (arr [120261; 645070; 615942]))
          = Ret (success example_config (num z)).
Proof.
  apply (lcm_answers_safe_integer 128 example_config unreachable_service
           120261 [645070; 615942]).
  - apply le_n.
  - reflexivity.
  - vm_compute. reflexivity.
Defined.

(** *** The prime branch *)

Lemma filter_twice {A : Type} (f : A -> bool) (l : list A) :
  filter f (filter f l) = filter f l.
Proof.
  induction l as [|x l IH]; [reflexivity|].
  cbn [filter]. destruct (f x) eqn:Hx; [|exact IH].
  cbn [filter]. rewrite Hx, IH. reflexivity.
Qed.

Lemma filter_length_le {A : Type} (f : A -> bool) (l : list A) :
  (List.length (filter f l) <= List.length l)%nat.
Proof.
  induction l as [|x l IH]; [apply le_n|].
  cbn [filter]. destruct (f x); cbn [List.length]; lia.
Qed.

(** X11.  The answer to a validated prime request holds exactly the
    elements of the array that are prime numbers, and it is itself a
    request that the handler accepts and answers with the same array. *)
Theorem prime_answer_is_fixed_point (fuel : nat) (cfg : config)
    (axios_post : jsstring -> axios_result) (zs : list Z) :
  (1001 <= fuel)%nat -> unset (EMAIL cfg) = false ->
  validateIntegerArray (arr zs) 0 = Valid ->
  exists ps,
    post_bfhl fuel cfg axios_post (obj1 "prime" (arr zs))
    = Ret (success cfg (arr ps))
    /\ (forall z, In z ps <-> In z zs /\ Z.prime z)
    /\ post_bfhl fuel cfg axios_post (obj1 "prime" (arr ps))
       = Ret (success cfg (arr ps)).
Proof.
  intros Hfuel Hcfg Hvalid. exists (filter spec_prime zs).
  rewrite !post_bfhl_prime by exact Hcfg.
  rewrite (handle_prime_valid fuel zs Hfuel Hvalid).
  split; [reflexivity|]. split.
  - intros z. rewrite filter_In, spec_prime_iff_prime. reflexivity.
  - rewrite handle_prime_valid; [rewrite filter_twice; reflexivity
                                | exact Hfuel |].
    apply validateIntegerArray_valid in Hvalid.
    destruct Hvalid as [ws [Heq [Hall [Hlen _]]]].
    unfold arr in Heq. injection Heq as Heq. apply map_num_inj in Heq.
    subst ws.
    apply validateIntegerArray_valid. exists (filter spec_prime zs).
    split; [reflexivity|]. split; [|split].
    + rewrite Forall_forall in *. intros z Hz. apply Hall.
      apply filter_In in Hz. apply Hz.
    + pose proof (filter_length_le spec_prime zs). lia.
    + lia.
Qed.

Lemma prime_answer_is_fixed_point_witness :
  exists ps,
    post_bfhl 1001 example_config unreachable_service
      (obj1 "prime" (arr [2; 4; 7; 9; 11]))
    = Ret (success example_config (arr ps))
    /\ (forall z, In z ps <-> In z [2; 4; 7; 9; 11] /\ Z.prime z)
    /\ post_bfhl 1001 example_config unreachable_service
         (obj1 "prime" (arr ps))
       = Ret (success example_config (arr ps)).
Proof.
  apply (prime_answer_is_fixed_point 1001 example_config
           unreachable_service [2; 4; 7; 9; 11]).
  - apply le_n.
  - reflexivity.
  - vm_compute. reflexivity.
Defined.

(** *** The Fibonacci branch *)

(** X12.  For every integer [n] from 0 to 79 the answer to
    [{ fibonacci: n }] is the list of the first [n] Fibonacci numbers
    themselves: no addition has rounded. *)
Theorem fibonacci_exact_up_to_79 (fuel : nat) (cfg : config)
    (axios_post : jsstring -> axios_result) (n : Z) :
  (1001 <= fuel)%nat -> unset (EMAIL cfg) = false -> 0 <= n <= 79 ->
  post_bfhl fuel cfg axios_post (obj1 "fibonacci" (num n))
  = Ret (success cfg (arr (fib_exact (Z.to_nat n) 0 1))).
Proof.
  intros Hfuel Hcfg Hn.
  rewrite post_bfhl_fibonacci by exact Hcfg.
  rewrite handle_fibonacci_valid by (unfold MAX_FIBONACCI_INPUT; lia).
  rewrite (fib_seq_prefix (Z.to_nat n) 79) by lia.
  rewrite fib_seq_79_exact, firstn_map.
  rewrite <- (fib_exact_prefix (Z.to_nat n) 79) by lia.
  unfold arr. rewrite map_map. reflexivity.
Qed.

Lemma fibonacci_exact_up_to_79_witness :
  post_bfhl 1001 example_config unreachable_service
    (obj1 "fibonacci" (num 10))
  = Ret (success example_config (arr (fib_exact (Z.to_nat 10) 0 1))).
Proof.
  apply (fibonacci_exact_up_to_79 1001 example_config unreachable_service
           10).
  - apply le_n.
  - reflexivity.
  - split; discriminate.
Defined.

Lemma firstn_Forall {A : Type} (P : A -> Prop) (n : nat) (l : list A) :
  Forall P l -> Forall P (firstn n l).
Proof.
  revert l. induction n as [|n IH]; intros l Hall; [constructor|].
  destruct Hall as [|y l Hy Hall]; [constructor|].
  cbn [firstn]. constructor; [exact Hy | apply IH, Hall].
Qed.

(** X13.  For every integer [n] from 0 to 1000 every element of the
    answer to [{ fibonacci: n }] is a whole number that is not negative:
    the sums never reach an infinity and never give NaN. *)
Theorem fibonacci_elements_finite (fuel : nat) (cfg : config)
    (axios_post : jsstring -> axios_result) (n : Z) :
  (1001 <= fuel)%nat -> unset (EMAIL cfg) = false ->
  0 <= n <= MAX_FIBONACCI_INPUT ->
  exists zs,
    post_bfhl fuel cfg axios_post (obj1 "fibonacci" (num n))
    = Ret (success cfg (arr zs))
    /\ Z.of_nat (List.length zs) = n
    /\ Forall (fun z => 0 <= z) zs.
Proof.
  intros Hfuel Hcfg Hn. unfold MAX_FIBONACCI_INPUT in Hn.
  destruct (whole_numbers _ fib_seq_1000_whole) as [zs [Heq Hzs]].
  exists (firstn (Z.to_nat n) zs).
  rewrite post_bfhl_fibonacci by exact Hcfg.
  rewrite handle_fibonacci_valid by (unfold MAX_FIBONACCI_INPUT; lia).
  rewrite (fib_seq_prefix (Z.to_nat n) 1000) by lia.
  rewrite Heq, firstn_map.
  split; [unfold arr; rewrite map_map; reflexivity|].
  split; [|apply firstn_Forall, Hzs].
  rewrite length_firstn.
  assert (List.length zs = 1000%nat).
  { rewrite <- (length_map Int zs), <- Heq. apply fib_seq_length. }
  lia.
Qed.

Lemma fibonacci_elements_finite_witness :
  exists zs,
    post_bfhl 1001 example_config unreachable_service
      (obj1 "fibonacci" (num 1000))
    = Ret (success example_config (arr zs))
    /\ Z.of_nat (List.length zs) = 1000
    /\ Forall (fun z => 0 <= z) zs.
Proof.
  apply (fibonacci_elements_finite 1001 example_config unreachable_service
           1000).
  - apply le_n.
  - reflexivity.
  - unfold MAX_FIBONACCI_INPUT. split; discriminate.
Defined.

(** X14.  The answers agree with one another: for [n <= m] the series
    answered to [{ fibonacci: n }] is the first [n] elements of the series
    answered to [{ fibonacci: m }]. *)
Theorem fibonacci_answers_are_prefixes (fuel : nat) (cfg : config)
    (axios_post : jsstring -> axios_result) (n m : Z) :
  (1001 <= fuel)%nat -> unset (EMAIL cfg) = false ->
  0 <= n -> n <= m -> m <= MAX_FIBONACCI_INPUT ->
  exists series,
    post_bfhl fuel cfg axios_post (obj1 "fibonacci" (num m))
    = Ret (success cfg (VArray (map VNumber series)))
    /\ post_bfhl fuel cfg axios_post (obj1 "fibonacci" (num n))
       = Ret (success cfg
                (VArray (map VNumber (firstn (Z.to_nat n) series)))).
Proof.
  intros Hfuel Hcfg Hn Hnm Hm. unfold MAX_FIBONACCI_INPUT in Hm.
  exists (fib_seq (Z.to_nat m) (Int 0) (Int 1)).
  rewrite !post_bfhl_fibonacci by exact Hcfg.
  rewrite !handle_fibonacci_valid by (unfold MAX_FIBONACCI_INPUT; lia).
  split; [reflexivity|].
  rewrite <- (fib_seq_prefix (Z.to_nat n) (Z.to_nat m)) by lia.
  reflexivity.
Qed.

Lemma fibonacci_answers_are_prefixes_witness :
  exists series,
    post_bfhl 1001 example_config unreachable_service
      (obj1 "fibonacci" (num 90))
    = Ret (success example_config (VArray (map VNumber series)))
    /\ post_bfhl 1001 example_config unreachable_service
         (obj1 "fibonacci" (num 7))
       = Ret (success example_config
                (VArray (map VNumber (firstn (Z.to_nat 7) series)))).
Proof.
  apply (fibonacci_answers_are_prefixes 1001 example_config
           unreachable_service 7 90).
  - apply le_n.
  - reflexivity.
  - discriminate.
  - discriminate.
  - unfold MAX_FIBONACCI_INPUT. discriminate.
Defined.

(** X15.  The checks of the Fibonacci branch, in their order: a value that
    is not a safe integer is refused as not a valid integer, a negative
    safe integer as negative, and a safe integer above
    [MAX_FIBONACCI_INPUT] as exceeding the maximum; each with the status
    400 and without a turn of the loop (the fuel may be 0). *)
Theorem fibonacci_input_errors (fuel : nat) (cfg : config)
    (axios_post : jsstring -> axios_result) (v : value) :
  unset (EMAIL cfg) = false ->
  (isSafeInteger v = false ->
   post_bfhl fuel cfg axios_post (obj1 "fibonacci" v)
   = Ret (failure 400 "Fibonacci input must be a valid integer"))
  /\ (forall n, v = num n -> Z.abs n <= MAX_SAFE_INTEGER -> n < 0 ->
      post_bfhl fuel cfg axios_post (obj1 "fibonacci" v)
      = Ret (failure 400 "Fibonacci input must be non-negative"))
  /\ (forall n, v = num n -> Z.abs n <= MAX_SAFE_INTEGER ->
      MAX_FIBONACCI_INPUT < n ->
      post_bfhl fuel cfg axios_post (obj1 "fibonacci" v)
      = Ret (failure 400 "Fibonacci input exceeds maximum of 1000")).
Proof.
  intros Hcfg. rewrite post_bfhl_fibonacci by exact Hcfg.
  unfold handle_fibonacci, obj1, get. cbn [lookup str jsstring_eqb].
  cbn -[isSafeInteger num as_number lt gt strict_eq fibonacci_for].
  split; [|split].
  - intros ->. reflexivity.
  - intros n -> Hsafe Hneg. rewrite isSafeInteger_num.
    destruct (Z.leb_spec (Z.abs n) MAX_SAFE_INTEGER);
      [|unfold MAX_SAFE_INTEGER in *; lia].
    cbn [negb num as_number]. rewrite lt_int.
    destruct (Z.ltb_spec n 0); [reflexivity | lia].
  - intros n -> Hsafe Hbig. rewrite isSafeInteger_num.
    destruct (Z.leb_spec (Z.abs n) MAX_SAFE_INTEGER);
      [|unfold MAX_SAFE_INTEGER in *; lia].
    cbn [negb num as_number]. rewrite lt_int, gt_int.
    unfold MAX_FIBONACCI_INPUT in *.
    destruct (Z.ltb_spec n 0); [lia|].
    destruct (Z.ltb_spec 1000 n); [reflexivity | lia].
Qed.

Lemma fibonacci_input_errors_witness :
  post_bfhl 0 example_config unreachable_service
    (obj1 "fibonacci" (VString (str "7")))
  = Ret (failure 400 "Fibonacci input must be a valid integer")
  /\ post_bfhl 0 example_config unreachable_service
       (obj1 "fibonacci" (num (-5)))
     = Ret (failure 400 "Fibonacci input must be non-negative")
  /\ post_bfhl 0 example_config unreachable_service
       (obj1 "fibonacci" (num 1001))
     = Ret (failure 400 "Fibonacci input exceeds maximum of 1000").
Proof.
  split; [|split].
  - destruct (fibonacci_input_errors 0 example_config unreachable_service
                (VString (str "7")) eq_refl) as [H _].
    exact (H eq_refl).
  - destruct (fibonacci_input_errors 0 example_config unreachable_service
                (num (-5)) eq_refl) as [_ [H _]].
    apply (H (-5)); [reflexivity | discriminate | reflexivity].
  - destruct (fibonacci_input_errors 0 example_config unreachable_service
                (num 1001) eq_refl) as [_ [_ H]].
    apply (H 1001); [reflexivity | discriminate | reflexivity].
Defined.

(** *** The array branches *)

(** X16.  The three array operations hand the error of
    [validateIntegerArray] to the client: when the validation with the
    minimum length of the operation (0 for [prime], 1 for [lcm] and
    [hcf]) refuses the value, the answer is 400 with the message of the
    validation, and nothing is computed (the fuel may be 0). *)
Theorem array_validation_error_is_answered (fuel : nat) (cfg : config)
    (axios_post : jsstring -> axios_result) (operation : string)
    (minLength : Z) (v : value) (e : string) :
  unset (EMAIL cfg) = false ->
  In (operation, minLength) array_operations ->
  validateIntegerArray v minLength = Invalid e ->
  post_bfhl fuel cfg axios_post (obj1 operation v) = Ret (failure 400 e).
Proof.
  intros Hcfg Hop Hinvalid. unfold array_operations in Hop.
  cbn [In] in Hop.
  destruct Hop as [Hop|[Hop|[Hop|[]]]]; injection Hop as <- <-.
  - rewrite post_bfhl_prime by exact Hcfg.
    unfold handle_prime, obj1, get. cbn [lookup str jsstring_eqb].
    cbn -[validateIntegerArray]. rewrite Hinvalid. reflexivity.
  - rewrite post_bfhl_lcm by exact Hcfg.
    unfold handle_lcm, obj1, get. cbn [lookup str jsstring_eqb].
    cbn -[validateIntegerArray]. rewrite Hinvalid. reflexivity.
  - rewrite post_bfhl_hcf by exact Hcfg.
    unfold handle_hcf, obj1, get. cbn [lookup str jsstring_eqb].
    cbn -[validateIntegerArray]. rewrite Hinvalid. reflexivity.
Qed.

Lemma array_validation_error_is_answered_witness :
  post_bfhl 0 example_config unreachable_service (obj1 "hcf" (arr []))
  = Ret (failure 400 "Array cannot be empty").
Proof.
  apply (array_validation_error_is_answered 0 example_config
           unreachable_service "hcf" 1 (arr []) "Array cannot be empty").
  - reflexivity.
  - right. right. left. reflexivity.
  - reflexivity.
Defined.

(** *** The AI branch *)

(** X17.  The checks of the AI branch, in their order: a value that is not
    a string, a string that is empty once trimmed, a string of more than
    [MAX_AI_QUESTION_LENGTH] code units and, for a valid question, a
    credential that is not set are each answered without a call of the
    answer service: the answer is the same for every service. *)
Theorem ai_input_errors (fuel : nat) (cfg : config)
    (axios_post : jsstring -> axios_result) (v : value) :
  unset (EMAIL cfg) = false ->
  ((forall q, v <> VString q) ->
   post_bfhl fuel cfg axios_post (obj1 "AI" v)
   = Ret (failure 400 "AI input must be a string"))
  /\ (forall q, v = VString q -> trim q = [] ->
      post_bfhl fuel cfg axios_post (obj1 "AI" v)
      = Ret (failure 400 "AI question cannot be empty"))
  /\ (forall q, v = VString q -> trim q <> [] ->
      MAX_AI_QUESTION_LENGTH < Z.of_nat (List.length q) ->
      post_bfhl fuel cfg axios_post (obj1 "AI" v)
      = Ret (failure 400 "AI question exceeds maximum length of 1000"))
  /\ (forall q, v = VString q -> valid_question q ->
      unset (GEMINI_API_KEY cfg) = true ->
      post_bfhl fuel cfg axios_post (obj1 "AI" v)
      = Ret (failure 500 "AI service not configured")).
Proof.
  intros Hcfg. rewrite post_bfhl_AI by exact Hcfg.
  unfold handle_AI, obj1, get. cbn [lookup str jsstring_eqb].
  cbn -[trim prompt extract_answer ai_catch Z.of_nat].
  split; [|split; [|split]].
  - intros Hnot. destruct v as [| | | |q| |]; try reflexivity.
    exfalso. apply (Hnot q). reflexivity.
  - intros q -> ->. reflexivity.
  - intros q -> Hne Hlong.
    destruct (trim q) as [|c t]; [contradiction|].
    cbn [List.length Nat.eqb].
    destruct (Z.gtb_spec (Z.of_nat (List.length q)) MAX_AI_QUESTION_LENGTH);
      [reflexivity | lia].
  - intros q -> [Hne Hlen] Hkey.
    destruct (trim q) as [|c t]; [contradiction|].
    cbn [List.length Nat.eqb].
    destruct (Z.gtb_spec (Z.of_nat (List.length q)) MAX_AI_QUESTION_LENGTH);
      [lia|].
    rewrite Hkey. reflexivity.
Qed.

Lemma ai_input_errors_witness :
  post_bfhl 0 example_config (answering "Mumbai") (obj1 "AI" (num 123))
  = Ret (failure 400 "AI input must be a string")
  /\ post_bfhl 0 example_config (answering "Mumbai")
       (obj1 "AI" (VString (str "   ")))
     = Ret (failure 400 "AI question cannot be empty")
  /\ post_bfhl 0 example_config (answering "Mumbai")
       (obj1 "AI" (VString (repeat 97%N 1001)))
     = Ret (failure 400 "AI question exceeds maximum length of 1000")
  /\ post_bfhl 0
       {| EMAIL := Some (str "a@b.c"); GEMINI_API_KEY := None |}
       (answering "Mumbai") (obj1 "AI" (VString (str "Capital?")))
     = Ret (failure 500 "AI service not configured").
Proof.
  split; [|split; [|split]].
  - destruct (ai_input_errors 0 example_config (answering "Mumbai")
                (num 123) eq_refl) as [H _].
    apply H. intros q Hq. discriminate Hq.
  - destruct (ai_input_errors 0 example_config (answering "Mumbai")
                (VString (str "   ")) eq_refl) as [_ [H _]].
    apply (H (str "   ")); reflexivity.
  - destruct (ai_input_errors 0 example_config (answering "Mumbai")
                (VString (repeat 97%N 1001)) eq_refl) as [_ [_ [H _]]].
    apply (H (repeat 97%N 1001)); [reflexivity | | ].
    + vm_compute. discriminate.
    + rewrite repeat_length. reflexivity.
  - destruct (ai_input_errors 0
                {| EMAIL := Some (str "a@b.c"); GEMINI_API_KEY := None |}
                (answering "Mumbai") (VString (str "Capital?")) eq_refl)
      as [_ [_ [_ H]]].
    apply (H (str "Capital?")); [reflexivity | | reflexivity].
    split; [vm_compute; discriminate | vm_compute; discriminate].
Defined.

(** X18.  When the service has answered a valid question but the reply
    has no text, or a text that is empty, the answer is 500; when the text
    is there but is not a string, the answer is 503, the status of an
    unreachable service. *)
Theorem ai_malformed_reply (fuel : nat) (cfg : config)
    (axios_post : jsstring -> axios_result) (q : jsstring)
    (response_data : value) :
  unset (EMAIL cfg) = false -> unset (GEMINI_API_KEY cfg) = false ->
  valid_question q -> axios_post (prompt q) = Resolved response_data ->
  (truthy (reply_text response_data) = false ->
   post_bfhl fuel cfg axios_post (obj1 "AI" (VString q))
   = Ret (failure 500 "AI service returned invalid response"))
  /\ (truthy (reply_text response_data) = true ->
      (forall s, reply_text response_data <> VString s) ->
      post_bfhl fuel cfg axios_post (obj1 "AI" (VString q))
      = Ret (failure 503 "AI service unavailable")).
Proof.
  intros Hcfg Hkey Hq Hcall.
  rewrite post_bfhl_AI by exact Hcfg.
  rewrite handle_AI_call by assumption. rewrite Hcall.
  unfold extract_answer. split.
  - intros ->. reflexivity.
  - intros -> Hnot. cbn [negb].
    destruct (reply_text response_data) as [| | | |s| |]; try reflexivity.
    exfalso. apply (Hnot s). reflexivity.
Qed.

Lemma ai_malformed_reply_witness :
  post_bfhl 0 example_config (fun _ => Resolved (obj1 "candidates" (VArray [])))
    (obj1 "AI" (VString (str "Capital?")))
  = Ret (failure 500 "AI service returned invalid response")
  /\ post_bfhl 0 example_config (fun _ => Resolved (reply_with (num 42)))
       (obj1 "AI" (VString (str "Capital?")))
     = Ret (failure 503 "AI service unavailable").
Proof.
  split.
  - destruct (ai_malformed_reply 0 example_config
                (fun _ => Resolved (obj1 "candidates" (VArray [])))
                (str "Capital?") (obj1 "candidates" (VArray []))
                eq_refl eq_refl) as [H _].
    + split; vm_compute; discriminate.
    + reflexivity.
    + apply H. reflexivity.
  - destruct (ai_malformed_reply 0 example_config
                (fun _ => Resolved (reply_with (num 42)))
                (str "Capital?") (reply_with (num 42))
                eq_refl eq_refl) as [_ H].
    + split; vm_compute; discriminate.
    + reflexivity.
    + apply H; [reflexivity|]. intros s Hs. discriminate Hs.
Defined.

Lemma first_token_no_space (s : jsstring) :
  Forall (fun c => isWhiteSpace c = false) (first_token s).
Proof.
  induction s as [|c s IH]; [constructor|].
  cbn [first_token]. destruct (isWhiteSpace c) eqn:Hc; [constructor|].
  constructor; assumption.
Qed.

Lemma replace_punctuation_clean (s : jsstring) :
  Forall (fun c => isWhiteSpace c = false) s ->
  Forall (fun c => isWhiteSpace c = false) (replace_punctuation s)
  /\ Forall (fun c => isPunctuation c = false) (replace_punctuation s).
Proof.
  intros Hall. unfold replace_punctuation. split.
  - rewrite Forall_forall in *. intros c Hc.
    apply filter_In in Hc. apply Hall, Hc.
  - rewrite Forall_forall. intros c Hc.
    apply filter_In in Hc. destruct Hc as [_ Hc].
    apply negb_true_iff in Hc. exact Hc.
Qed.

Lemma or_unknown_clean (s : jsstring) :
  Forall (fun c => isWhiteSpace c = false) s ->
  Forall (fun c => isPunctuation c = false) s ->
  clean_word (or_unknown s).
Proof.
  intros Hspace Hpunct. destruct s as [|c s].
  - cbn [or_unknown]. split; [discriminate|].
    split; repeat constructor.
  - cbn [or_unknown]. split; [discriminate|]. split; assumption.
Qed.

(** X19.  Whatever non-empty text the service replies with to a valid
    question, the word that is answered is never empty and holds no white
    space and none of the characters . , ! ? ; : *)
Theorem ai_answer_is_clean_word (fuel : nat) (cfg : config)
    (axios_post : jsstring -> axios_result) (q : jsstring)
    (response_data : value) (s : jsstring) :
  unset (EMAIL cfg) = false -> unset (GEMINI_API_KEY cfg) = false ->
  valid_question q -> axios_post (prompt q) = Resolved response_data ->
  reply_text response_data = VString s -> s <> [] ->
  exists word,
    post_bfhl fuel cfg axios_post (obj1 "AI" (VString q))
    = Ret (success cfg (VString word))
    /\ clean_word word.
Proof.
  intros Hcfg Hkey Hq Hcall Htext Hne.
  exists (or_unknown (replace_punctuation (first_token (trim s)))).
  rewrite post_bfhl_AI by exact Hcfg.
  rewrite handle_AI_call by assumption. rewrite Hcall.
  rewrite (extract_answer_text _ s) by assumption.
  split; [reflexivity|].
  destruct (replace_punctuation_clean (first_token (trim s))
              (first_token_no_space _)) as [Hspace Hpunct].
  apply or_unknown_clean; assumption.
Qed.

Lemma ai_answer_is_clean_word_witness :
  exists word,
    post_bfhl 0 example_config (answering "  U.S.A., of course!")
      (obj1 "AI" (VString (str "Which country?")))
    = Ret (success example_config (VString word))
    /\ clean_word word.
Proof.
  apply (ai_answer_is_clean_word 0 example_config
           (answering "  U.S.A., of course!") (str "Which country?")
           (reply_with (VString (str "  U.S.A., of course!")))
           (str "  U.S.A., of course!")).
  - reflexivity.
  - reflexivity.
  - split; vm_compute; discriminate.
  - reflexivity.
  - reflexivity.
  - discriminate.
Defined.

(** *** The guards of the handler *)

(** X20.  While the identity of the server is not set, [GET /health] and
    [POST /bfhl] answer 500 with the configuration message: the body of
    the request is not looked at, and no operation runs. *)
Theorem unconfigured_server (fuel : nat) (cfg : config)
    (axios_post : jsstring -> axios_result) :
  unset (EMAIL cfg) = true ->
  serve fuel cfg axios_post GET_health
  = Ret (failure 500 "Server configuration error")
  /\ forall body,
       serve fuel cfg axios_post (POST_bfhl body)
       = Ret (failure 500 "Server configuration error").
Proof.
  intros Hcfg. split.
  - cbn [serve]. unfold get_health. rewrite Hcfg. reflexivity.
  - intros body. cbn [serve]. unfold post_bfhl, post_bfhl_try.
    rewrite Hcfg. reflexivity.
Qed.

Lemma unconfigured_server_witness :
  serve 0 unconfigured unreachable_service GET_health
  = Ret (failure 500 "Server configuration error")
  /\ serve 0 unconfigured unreachable_service
       (POST_bfhl (obj1 "fibonacci" (num 5)))
     = Ret (failure 500 "Server configuration error").
Proof.
  destruct (unconfigured_server 0 unconfigured unreachable_service eq_refl)
    as [Hhealth Hpost].
  split; [exact Hhealth | apply Hpost].
Defined.

(** X21.  Only an object is taken as a request: a body that is neither an
    object nor an array is refused with 400 and the invalid-body message,
    and an array passes that check but is refused by the key checks,
    whatever it holds: the empty array as an empty body, an array of one
    element because its only key is the index 0, a longer array for its
    number of keys. *)
Theorem body_must_be_an_object (fuel : nat) (cfg : config)
    (axios_post : jsstring -> axios_result) (body : value) :
  unset (EMAIL cfg) = false ->
  ((forall fields, body <> VObject fields) ->
   (forall elems, body <> VArray elems) ->
   post_bfhl fuel cfg axios_post body
   = Ret (failure 400 "Invalid request body"))
  /\ (forall elems, body = VArray elems ->
      post_bfhl fuel cfg axios_post body
      = Ret (failure 400
               match elems with
               | [] => "Request body cannot be empty"
               | [_] =>
                   "Invalid key. Allowed keys: fibonacci, prime, lcm, hcf, AI"
               | _ => "Request must contain exactly one key"
               end)).
Proof.
  intros Hcfg. split.
  - intros Hobject Harray.
    unfold post_bfhl, post_bfhl_try. rewrite Hcfg.
    destruct body as [| |b|x|s|elems|fields].
    + reflexivity.
    + reflexivity.
    + destruct b; reflexivity.
    + destruct (truthy (VNumber x)); reflexivity.
    + destruct (truthy (VString s)); reflexivity.
    + exfalso. apply (Harray elems). reflexivity.
    + exfalso. apply (Hobject fields). reflexivity.
  - intros elems ->. unfold post_bfhl, post_bfhl_try. rewrite Hcfg.
    destruct elems as [|v [|v' elems]].
    + reflexivity.
    + vm_compute. reflexivity.
    + cbn [truthy typeof_object negb orb Object_keys List.length seq map
             Nat.eqb Nat.ltb Nat.leb]. reflexivity.
Qed.

Lemma body_must_be_an_object_witness :
  post_bfhl 0 example_config unreachable_service (VString (str "fibonacci"))
  = Ret (failure 400 "Invalid request body")
  /\ post_bfhl 0 example_config unreachable_service
       (VArray [obj1 "fibonacci" (num 5)])
     = Ret (failure 400
              "Invalid key. Allowed keys: fibonacci, prime, lcm, hcf, AI").
Proof.
  split.
  - destruct (body_must_be_an_object 0 example_config unreachable_service
                (VString (str "fibonacci")) eq_refl) as [H _].
    apply H; intros x Hx; discriminate Hx.
  - destruct (body_must_be_an_object 0 example_config unreachable_service
                (VArray [obj1 "fibonacci" (num 5)]) eq_refl) as [_ H].
    apply (H [obj1 "fibonacci" (num 5)]). reflexivity.
Defined.

(** *** The LCM of an array that holds a zero *)

(** X22.  A valid array that holds a zero has the LCM 0: the reduction
    does not run, so that no overflow is reported, whatever the other
    elements are. *)
Theorem lcm_with_zero (fuel : nat) (cfg : config)
    (axios_post : jsstring -> axios_result) (zs : list Z) :
  unset (EMAIL cfg) = false ->
  validateIntegerArray (arr zs) 1 = Valid -> In 0 zs ->
  post_bfhl fuel cfg axios_post (obj1 "lcm" (arr zs))
  = Ret (success cfg (num 0)).
Proof.
  intros Hcfg Hvalid Hzero.
  rewrite post_bfhl_lcm by exact Hcfg.
  unfold handle_lcm, obj1, get. cbn [lookup str jsstring_eqb].
  cbn -[validateIntegerArray arr reduce existsb].
  rewrite Hvalid. unfold arr. cbn [elements].
  rewrite existsb_zero_value.
  replace (existsb (Z.eqb 0) zs) with true; [reflexivity|].
  symmetry. apply existsb_exists. exists 0. split; [exact Hzero|reflexivity].
Qed.

Lemma lcm_with_zero_witness :
  post_bfhl 0 example_config unreachable_service
    (obj1 "lcm" (arr [222437; 918065; 49745; 0]))
  = Ret (success example_config (num 0)).
Proof.
  apply (lcm_with_zero 0 example_config unreachable_service
           [222437; 918065; 49745; 0]).
  - reflexivity.
  - vm_compute. reflexivity.
  - right. right. right. left. reflexivity.
Defined.

(** *** The statuses *)

Ltac early_code :=
  let early := fresh "early" in
  let Hearly := fresh "Hearly" in
  intros early Hearly;
  first [ discriminate Hearly
        | injection Hearly as <-; eexists _, _;
          split; [reflexivity | cbn [In]; auto 10] ].

Lemma handle_fibonacci_codes (fuel : nat) (body : value) :
  early_codes [400] (handle_fibonacci fuel body).
Proof.
  unfold handle_fibonacci.
  destruct (negb (isSafeInteger (get body "fibonacci"))); [early_code|].
  destruct (lt (as_number (get body "fibonacci")) (Int 0)); [early_code|].
  destruct (gt (as_number (get body "fibonacci")) (Int MAX_FIBONACCI_INPUT));
    [early_code|].
  destruct (if strict_eq (as_number (get body "fibonacci")) (Int 0)
            then Ret []
            else fibonacci_for fuel (as_number (get body "fibonacci"))
                   (Int 0) (Int 0) (Int 1) []) as [result|e|];
    cbn [bind]; early_code.
Qed.

Lemma handle_prime_codes (fuel : nat) (body : value) :
  early_codes [400] (handle_prime fuel body).
Proof.
  unfold handle_prime.
  destruct (validateIntegerArray (get body "prime") 0); [|early_code].
  destruct (filter_run (isPrime fuel) (elements (get body "prime")));
    cbn [bind]; early_code.
Qed.

Lemma handle_lcm_codes (fuel : nat) (body : value) :
  early_codes [400] (handle_lcm fuel body).
Proof.
  unfold handle_lcm.
  destruct (validateIntegerArray (get body "lcm") 1); [|early_code].
  destruct (existsb is_zero_value (elements (get body "lcm")));
    [early_code|].
  destruct (reduce (lcm_step fuel)
              (map as_number (elements (get body "lcm"))));
    early_code.
Qed.

Lemma handle_hcf_codes (fuel : nat) (body : value) :
  early_codes [400] (handle_hcf fuel body).
Proof.
  unfold handle_hcf.
  destruct (validateIntegerArray (get body "hcf") 1); [|early_code].
  destruct (reduce (gcd fuel) (map as_number (elements (get body "hcf"))));
    cbn [bind]; early_code.
Qed.

Lemma handle_AI_codes (cfg : config) (axios_post : jsstring -> axios_result)
    (body : value) :
  early_codes failure_statuses (handle_AI cfg axios_post body).
Proof.
  unfold handle_AI, failure_statuses.
  destruct (get body "AI") as [| | | |q| |]; try early_code.
  destruct (Nat.eqb (List.length (trim q)) 0); [early_code|].
  destruct (Z.of_nat (List.length q) >? MAX_AI_QUESTION_LENGTH);
    [early_code|].
  destruct (unset (GEMINI_API_KEY cfg)); [early_code|].
  destruct (axios_post (prompt q)) as [response_data|e].
  - unfold extract_answer.
    destruct (negb (truthy (reply_text response_data))); [early_code|].
    destruct (reply_text response_data) as [| | | |s| |];
      try (unfold ai_catch, plain_error; cbn; early_code).
    destruct (negb (truthy (VString
                (replace_punctuation (hd [] (split_ws (trim s))))))
              || Nat.eqb (List.length
                   (replace_punctuation (hd [] (split_ws (trim s))))) 0);
      early_code.
  - unfold ai_catch. destruct (truthy (err_response e)); [early_code|].
    destruct (is_string_value (err_code e) "ECONNABORTED"); early_code.
Qed.

Lemma early_codes_incl (codes codes' : list Z) (r : run (response + value)) :
  incl codes codes' -> early_codes codes r -> early_codes codes' r.
Proof.
  intros Hincl Hr early Hearly.
  destruct (Hr early Hearly) as [code [message [-> Hin]]].
  exists code, message. split; [reflexivity | apply Hincl, Hin].
Qed.

(** How a branch that has run ends: with a success, or with a failure of
    one of its statuses. *)
Lemma finish_cases (cfg : config) (codes : list Z)
    (r : run (response + value)) :
  branch_ok r -> early_codes codes r ->
  exists resp,
    finish cfg r = Ret resp
    /\ ((exists result, resp = success cfg result)
        \/ failure_among codes resp).
Proof.
  intros [[early|result] [-> _]] Hcodes; cbn [finish].
  - exists early. split; [reflexivity|]. right. apply Hcodes. reflexivity.
  - exists (success cfg result). split; [reflexivity|]. left.
    exists result. reflexivity.
Qed.

Lemma finish_not_caught (cfg : config) (r : run (response + value))
    (resp : response) :
  branch_ok r -> finish cfg r = Ret resp ->
  (x <- r ;;
   match x with
   | inl early => Ret early
   | inr result => Ret (success cfg result)
   end) = Ret resp.
Proof.
  intros [[early|result] [-> _]] Hfinish; cbn [finish bind] in *;
    exact Hfinish.
Qed.

Lemma numeric_branch (fuel : nat) (cfg : config)
    (axios_post : jsstring -> axios_result) (operation : string)
    (v : value) :
  unset (EMAIL cfg) = false -> (1001 <= fuel)%nat ->
  In operation numeric_operations ->
  exists r,
    post_bfhl fuel cfg axios_post (obj1 operation v) = Ret r
    /\ ((exists result, r = success cfg result) \/ failure_among [400] r).
Proof.
  intros Hcfg Hfuel Hop. unfold numeric_operations in Hop. cbn [In] in Hop.
  destruct Hop as [<-|[<-|[<-|[<-|[]]]]].
  - rewrite post_bfhl_fibonacci by exact Hcfg.
    apply finish_cases;
      [apply handle_fibonacci_ok; assumption | apply handle_fibonacci_codes].
  - rewrite post_bfhl_prime by exact Hcfg.
    apply finish_cases;
      [apply handle_prime_ok; assumption | apply handle_prime_codes].
  - rewrite post_bfhl_lcm by exact Hcfg.
    apply finish_cases;
      [apply handle_lcm_ok; assumption | apply handle_lcm_codes].
  - rewrite post_bfhl_hcf by exact Hcfg.
    apply finish_cases;
      [apply handle_hcf_ok; assumption | apply handle_hcf_codes].
Qed.

(** X23.  On a configured server a request of one of the four operations
    on numbers is answered with 200 and a success or with 400 and a
    failure: none of the statuses 500 to 504 is given to it, whatever the
    value it carries. *)
Theorem numeric_operations_answer_200_or_400 (fuel : nat) (cfg : config)
    (axios_post : jsstring -> axios_result) (operation : string)
    (v : value) :
  unset (EMAIL cfg) = false -> (1001 <= fuel)%nat ->
  In operation numeric_operations ->
  exists r,
    post_bfhl fuel cfg axios_post (obj1 operation v) = Ret r
    /\ (status r = 200 /\ is_success r = true
        \/ status r = 400 /\ is_success r = false).
Proof.
  intros Hcfg Hfuel Hop.
  destruct (numeric_branch fuel cfg axios_post operation v Hcfg Hfuel Hop)
    as [r [Hr [[result ->]|[code [message [-> Hcode]]]]]];
    eexists; (split; [exact Hr|]).
  - left. split; reflexivity.
  - right. cbn [In] in Hcode. destruct Hcode as [<-|[]].
    split; reflexivity.
Qed.

Lemma numeric_operations_answer_200_or_400_witness :
  exists r,
    post_bfhl 1001 example_config unreachable_service
      (obj1 "hcf" (VString (str "12, 18"))) = Ret r
    /\ (status r = 200 /\ is_success r = true
        \/ status r = 400 /\ is_success r = false).
Proof.
  apply (numeric_operations_answer_200_or_400 1001 example_config
           unreachable_service "hcf" (VString (str "12, 18"))).
  - reflexivity.
  - lia.
  - right. right. right. left. reflexivity.
Defined.

(** The try block of the handler ends with a response: a success, a
    failure with the status 400 or 500, or, for a body whose single key is
    [AI], a failure with one of the statuses of the AI branch. *)
Lemma post_bfhl_try_cases (fuel : nat) (cfg : config)
    (axios_post : jsstring -> axios_result) (body : value) :
  (1001 <= fuel)%nat ->
  exists r,
    post_bfhl_try fuel cfg axios_post body = Ret r
    /\ ((exists result, r = success cfg result)
        \/ failure_among [400; 500] r
        \/ (failure_among failure_statuses r
            /\ exists v, body = obj1 "AI" v)).
Proof.
  intros Hfuel.
  assert (Hfail : forall code message b,
             In code [400; 500] ->
             exists r, Ret (failure code message) = Ret r
                       /\ ((exists result, r = success cfg result)
                           \/ failure_among [400; 500] r
                           \/ (failure_among failure_statuses r
                               /\ exists v, b = obj1 "AI" v))).
  { intros code message b Hin. exists (failure code message).
    split; [reflexivity|]. right. left. exists code, message.
    split; [reflexivity | exact Hin]. }
  assert (H400 : In 400 [400; 500]) by (left; reflexivity).
  assert (H500 : In 500 [400; 500]) by (right; left; reflexivity).
  destruct (unset (EMAIL cfg)) eqn:Hcfg.
  { unfold post_bfhl_try. rewrite Hcfg. apply Hfail, H500. }
  assert (Hkey : forall codes r v' operation,
             post_bfhl_try fuel cfg axios_post (obj1 operation v')
             = (x <- r ;;
                match x with
                | inl early => Ret early
                | inr result => Ret (success cfg result)
                end) ->
             branch_ok r -> early_codes codes r ->
             exists resp,
               post_bfhl_try fuel cfg axios_post (obj1 operation v') = Ret resp
               /\ ((exists result, resp = success cfg result)
                   \/ failure_among codes resp)).
  { intros codes r v' operation Heq Hok Hcodes.
    destruct (finish_cases cfg codes r Hok Hcodes) as [resp [Hresp Hshape]].
    exists resp. split; [|exact Hshape].
    rewrite Heq. apply finish_not_caught; assumption. }
  assert (Hnum : forall v' operation,
             (exists resp,
                post_bfhl_try fuel cfg axios_post (obj1 operation v')
                = Ret resp
                /\ ((exists result, resp = success cfg result)
                    \/ failure_among [400] resp)) ->
             exists resp,
               post_bfhl_try fuel cfg axios_post (obj1 operation v')
               = Ret resp
               /\ ((exists result, resp = success cfg result)
                   \/ failure_among [400; 500] resp
                   \/ (failure_among failure_statuses resp
                       /\ exists v, obj1 operation v' = obj1 "AI" v))).
  { intros v' operation [resp [Hresp [Hok|[code [message [Heq Hin]]]]]];
      exists resp; (split; [exact Hresp|]); [left; exact Hok|].
    right. left. exists code, message. split; [exact Heq|].
    destruct Hin as [<-|[]]. exact H400. }
  destruct body as [| |b|x|s|elems|fields];
    try (unfold post_bfhl_try; rewrite Hcfg; cbn; apply Hfail, H400).
  - destruct b; unfold post_bfhl_try; rewrite Hcfg; cbn; apply Hfail, H400.
  - unfold post_bfhl_try; rewrite Hcfg.
    destruct (truthy (VNumber x)); cbn; apply Hfail, H400.
  - unfold post_bfhl_try; rewrite Hcfg.
    destruct (truthy (VString s)); cbn; apply Hfail, H400.
  - destruct elems as [|v [|v' elems]]; unfold post_bfhl_try; rewrite Hcfg.
    + cbn. apply Hfail, H400.
    + vm_compute. apply (Hfail 400%Z), H400.
    + cbn [truthy typeof_object negb orb Object_keys List.length seq map
             Nat.eqb Nat.ltb Nat.leb]. apply Hfail, H400.
  - destruct fields as [|[k v] [|kv fields]].
    + unfold post_bfhl_try; rewrite Hcfg. cbn. apply Hfail, H400.
    + destruct (existsb (fun k' => jsstring_eqb (str k') k) allowedKeys)
        eqn:Hallowed.
      * apply existsb_exists in Hallowed.
        destruct Hallowed as [k' [Hin Hk]].
        apply jsstring_eqb_eq in Hk. subst k.
        change (VObject [(str k', v)]) with (obj1 k' v).
        unfold allowedKeys in Hin. cbn [In] in Hin.
        destruct Hin as [<-|[<-|[<-|[<-|[<-|[]]]]]].
        -- apply Hnum.
           apply (Hkey [400] (handle_fibonacci fuel (obj1 "fibonacci" v)));
             [ unfold post_bfhl_try, obj1; rewrite Hcfg; reflexivity
             | apply handle_fibonacci_ok; assumption
             | apply handle_fibonacci_codes ].
        -- apply Hnum.
           apply (Hkey [400] (handle_prime fuel (obj1 "prime" v)));
             [ unfold post_bfhl_try, obj1; rewrite Hcfg; reflexivity
             | apply handle_prime_ok; assumption
             | apply handle_prime_codes ].
        -- apply Hnum.
           apply (Hkey [400] (handle_lcm fuel (obj1 "lcm" v)));
             [ unfold post_bfhl_try, obj1; rewrite Hcfg; reflexivity
             | apply handle_lcm_ok; assumption
             | apply handle_lcm_codes ].
        -- apply Hnum.
           apply (Hkey [400] (handle_hcf fuel (obj1 "hcf" v)));
             [ unfold post_bfhl_try, obj1; rewrite Hcfg; reflexivity
             | apply handle_hcf_ok; assumption
             | apply handle_hcf_codes ].
        -- destruct (Hkey failure_statuses
                       (handle_AI cfg axios_post (obj1 "AI" v)) v "AI"%string)
             as [resp [Hresp Hshape]];
             [ unfold post_bfhl_try, obj1; rewrite Hcfg; reflexivity
             | apply handle_AI_ok
             | apply handle_AI_codes
             | ].
           exists resp. split; [exact Hresp|].
           destruct Hshape as [Hok|Hko]; [left; exact Hok|].
           right. right. split; [exact Hko|]. exists v. reflexivity.
      * unfold post_bfhl_try; rewrite Hcfg.
        cbn [truthy typeof_object negb orb Object_keys List.length map fst
               Nat.eqb Nat.ltb Nat.leb hd].
        rewrite Hallowed. cbn [negb]. apply Hfail, H400.
    + unfold post_bfhl_try; rewrite Hcfg.
      cbn [truthy typeof_object negb orb Object_keys List.length map fst
             Nat.eqb Nat.ltb Nat.leb]. apply Hfail, H400.
Qed.

(** X24.  No error escapes the try block of the handler of [POST /bfhl]:
    the reduction of an empty array and the overflow of the LCM, the two
    errors that the operations raise, are kept off by the validation or
    caught in the branch.  With enough fuel the block ends with a response
    for every body, and the handler answers that response and not the one
    of its catch clause. *)
Theorem try_block_always_responds (fuel : nat) (cfg : config)
    (axios_post : jsstring -> axios_result) (body : value) :
  (1001 <= fuel)%nat ->
  exists r,
    post_bfhl_try fuel cfg axios_post body = Ret r
    /\ post_bfhl fuel cfg axios_post body = Ret r.
Proof.
  intros Hfuel.
  destruct (post_bfhl_try_cases fuel cfg axios_post body Hfuel)
    as [r [Hr _]].
  exists r. split; [exact Hr|]. unfold post_bfhl. rewrite Hr. reflexivity.
Qed.

Lemma try_block_always_responds_witness :
  exists r,
    post_bfhl_try 1001 example_config unreachable_service
      (obj1 "lcm" (arr [])) = Ret r
    /\ post_bfhl 1001 example_config unreachable_service
         (obj1 "lcm" (arr [])) = Ret r.
Proof.
  apply (try_block_always_responds 1001 example_config unreachable_service
           (obj1 "lcm" (arr []))).
  lia.
Defined.

(** X25.  The statuses that the handlers of the application write: the
    handlers of [GET /health] and [POST /bfhl], the 404 fallback and the
    error handler.  With enough fuel each of them answers with one of the
    statuses 200, 400, 404, 500, 502, 503 and 504; the answer is a success
    exactly when the status is 200; only the fallback writes 404, and only
    the handler of [POST /bfhl], on a body whose single key is [AI], writes
    502, 503 or 504.  What the middleware answers by itself before a
    handler runs (the CORS layer to an [OPTIONS] request) is not an answer
    of these handlers. *)
Theorem handler_status_codes (fuel : nat) (cfg : config)
    (axios_post : jsstring -> axios_result) (req : request) :
  (1001 <= fuel)%nat ->
  exists r,
    serve fuel cfg axios_post req = Ret r
    /\ In (status r) known_statuses
    /\ (is_success r = true <-> status r = 200)
    /\ (status r = 404 -> req = OtherRoute)
    /\ (In (status r) [502; 503; 504] ->
        exists v, req = POST_bfhl (obj1 "AI" v)).
Proof.
  intros Hfuel. destruct req as [|body|e|]; cbn [serve].
  - exists (get_health cfg). split; [reflexivity|].
    unfold get_health. destruct (unset (EMAIL cfg)); cbn;
      (repeat split; try (intros H; discriminate H); auto 10;
       intros H; repeat (destruct H as [H|H]; [discriminate H|]);
       contradiction).
  - destruct (post_bfhl_try_cases fuel cfg axios_post body Hfuel)
      as [r [Hr Hshape]].
    exists r. split; [unfold post_bfhl; rewrite Hr; reflexivity|].
    destruct Hshape
      as [[result ->]
         |[[code [message [-> Hcode]]]
          |[[code [message [-> Hcode]]] [v ->]]]].
    + cbn. repeat split; try (intros H; discriminate H); auto 10.
      intros H; repeat (destruct H as [H|H]; [discriminate H|]).
      contradiction.
    + cbn [In] in Hcode. destruct Hcode as [<-|[<-|[]]]; cbn;
        (repeat split; try (intros H; discriminate H); auto 10;
         intros H; repeat (destruct H as [H|H]; [discriminate H|]);
         contradiction).
    + unfold failure_statuses in Hcode. cbn [In] in Hcode.
      destruct Hcode as [<-|[<-|[<-|[<-|[<-|[]]]]]]; cbn;
        (repeat split; try (intros H; discriminate H); auto 10;
         intros _; exists v; reflexivity).
  - exists (error_handler e). split; [reflexivity|].
    destruct e; cbn;
      (repeat split; try (intros H; discriminate H); auto 10;
       intros H; repeat (destruct H as [H|H]; [discriminate H|]);
       contradiction).
  - exists not_found. split; [reflexivity|]. cbn.
    repeat split; try (intros H; discriminate H); auto 10.
    intros H; repeat (destruct H as [H|H]; [discriminate H|]).
    contradiction.
Qed.

Lemma handler_status_codes_witness :
  exists r,
    serve 1001 example_config unreachable_service
      (POST_bfhl (obj1 "AI" (VString (str "Capital of India?")))) = Ret r
    /\ In (status r) known_statuses
    /\ (is_success r = true <-> status r = 200)
    /\ (status r = 404
        -> POST_bfhl (obj1 "AI" (VString (str "Capital of India?")))
           = OtherRoute)
    /\ (In (status r) [502; 503; 504] ->
        exists v,
          POST_bfhl (obj1 "AI" (VString (str "Capital of India?")))
          = POST_bfhl (obj1 "AI" v)).
Proof.
  apply (handler_status_codes 1001 example_config unreachable_service
           (POST_bfhl (obj1 "AI" (VString (str "Capital of India?"))))).
  lia.
Defined.
